(** * Intake model and report-generation client of the arbitration seat-change app

    A shallow embedding of the parts of the repository the specification
    talks about:

    - [computeMissingFromIntake] and [parseProposedSeats]
      (frontend/src/components/MainPage.tsx),
    - [apiFetch] and [api.regenerateReport] (frontend/src/lib/api.ts),
    - the chat handlers [handleSendMessage], [handleGenerateReport] and
      [pollProjectUntilNotWorking] (MainPage.tsx),
    - the [projects] table of migrations/001_init.sql and the report
      columns added by the second migration.

    JavaScript strings are sequences of UTF-16 code units, JavaScript
    values of type [any] are the JSON values plus [undefined]. *)

From Stdlib Require Import ZArith NArith List String Ascii Bool Lia DecimalString.
From stdpp Require Import base gmap strings list.

Set Warnings "-register-all".

(* ===================================================================== *)
(** ** JavaScript strings *)
(* ===================================================================== *)

Module Js.

(** A string is a list of UTF-16 code units. *)
Definition jsstring := list N.

(** A literal of the program text (ASCII only). *)
Definition lit (s : string) : jsstring :=
  map N_of_ascii (list_ascii_of_string s).

(** ECMAScript WhiteSpace and LineTerminator code points, the characters
    [String.prototype.trim] strips. All of them are in the basic plane, so
    the test on code units is exact. *)
Definition isWhiteSpace (c : N) : bool :=
  ((c =? 0x9) || (c =? 0xA) || (c =? 0xB) || (c =? 0xC) || (c =? 0xD)
   || (c =? 0x20) || (c =? 0xA0) || (c =? 0x1680)
   || ((0x2000 <=? c) && (c <=? 0x200A))
   || (c =? 0x2028) || (c =? 0x2029) || (c =? 0x202F) || (c =? 0x205F)
   || (c =? 0x3000) || (c =? 0xFEFF))%N.

Fixpoint trimStart (s : jsstring) : jsstring :=
  match s with
  | [] => []
  | c :: r => if isWhiteSpace c then trimStart r else s
  end.

Definition trimEnd (s : jsstring) : jsstring := rev (trimStart (rev s)).

(** [s.trim()] *)
Definition trim (s : jsstring) : jsstring := trimEnd (trimStart s).

(** [haystack.includes(needle)] *)
Fixpoint startsWith (needle s : jsstring) : bool :=
  match needle, s with
  | [], _ => true
  | _ :: _, [] => false
  | a :: n', b :: s' => (a =? b)%N && startsWith n' s'
  end.

Fixpoint includes (needle s : jsstring) : bool :=
  startsWith needle s ||
  match s with
  | [] => false
  | _ :: r => includes needle r
  end.

(** The separators of the regular expression [/[,;\n]/g]. *)
Definition isSeparator (c : N) : bool :=
  ((c =? 44) || (c =? 59) || (c =? 10))%N.

(** [raw.split(/[,;\n]/g)]: the segments between separators; the empty
    string gives one empty segment. *)
Fixpoint split (raw : jsstring) : list jsstring :=
  match raw with
  | [] => [[]]
  | c :: r =>
      if isSeparator c then [] :: split r
      else match split r with
           | [] => [[c]]
           | seg :: segs => (c :: seg) :: segs
           end
  end.

(** ** JavaScript values *)

Inductive jsval :=
| JUndefined
| JNull
| JBool (b : bool)
| JNum (n : Z)
| JStr (s : jsstring)
| JArr (l : list jsval)
| JObj (o : gmap string jsval).

Definition string_of_Z (n : Z) : string :=
  NilZero.string_of_int (Z.to_int n).

(** [String(v)]. Numbers are the integers, printed in decimal (the model
    leaves fractions and exponents out); an array prints its elements
    joined by commas, [null] and [undefined] elements as the empty string;
    a plain object prints as [[object Object]]. *)
Fixpoint ToString (v : jsval) : jsstring :=
  match v with
  | JUndefined => lit "undefined"
  | JNull => lit "null"
  | JBool b => if b then lit "true" else lit "false"
  | JNum n => lit (string_of_Z n)
  | JStr s => s
  | JArr l =>
      (fix join (l : list jsval) : jsstring :=
         match l with
         | [] => []
         | x :: r =>
             let e := match x with
                      | JUndefined | JNull => []
                      | _ => ToString x
                      end in
             match r with
             | [] => e
             | _ :: _ => e ++ lit "," ++ join r
             end
         end) l
  | JObj _ => lit "[object Object]"
  end.

(** Truthiness of a string and of a value. *)
Definition nonEmpty (s : jsstring) : bool :=
  match s with [] => false | _ :: _ => true end.

Definition ToBoolean (v : jsval) : bool :=
  match v with
  | JUndefined | JNull => false
  | JBool b => b
  | JNum n => negb (n =? 0)%Z
  | JStr s => nonEmpty s
  | JArr _ | JObj _ => true
  end.

(** [a || b] *)
Definition or_else (a b : jsval) : jsval := if ToBoolean a then a else b.


(** [o.k] on a plain object: the own property or [undefined]. *)
Definition get (o : gmap string jsval) (k : string) : jsval :=
  default JUndefined (o !! k).

End Js.

Import Js.

(* ===================================================================== *)
(** ** Intake model (MainPage.tsx) *)
(* ===================================================================== *)

(** [missing.push(x)] on the local array. *)
Definition push (missing : list string) (x : string) : list string :=
  missing ++ [x].

(** The test [!String(v || "").trim()] of the four text fields. *)
Definition textMissing (v : jsval) : bool :=
  negb (nonEmpty (trim (ToString (or_else v (JStr []))))).

(** The test
    [!Array.isArray(ps) || ps.filter((x) => String(x).trim()).length === 0]. *)
Definition seatsMissing (ps : jsval) : bool :=
  match ps with
  | JArr l =>
      (length (filter (λ x, nonEmpty (trim (ToString x)) = true) l) =? 0)%nat
  | _ => true
  end.

Definition computeMissingFromIntake
    (intake : option (gmap string jsval)) : list string :=
  let i := default ∅ intake in
  let missing := [] in
  let missing :=
    if textMissing (get i "current_seat")
    then push missing "current_seat" else missing in
  let ps := get i "proposed_seats" in
  let missing :=
    if seatsMissing ps then push missing "proposed_seats" else missing in
  let missing :=
    if textMissing (get i "arbitration_agreement_text")
    then push missing "arbitration_agreement_text" else missing in
  let missing :=
    if textMissing (get i "institution_rules")
    then push missing "institution_rules" else missing in
  let missing :=
    if textMissing (get i "governing_law")
    then push missing "governing_law" else missing in
  missing.

Definition parseProposedSeats (raw : jsstring) : list jsstring :=
  filter (λ s, nonEmpty s = true) (map trim (split raw)).

(** The required fields in the order of the data model. *)
Definition required_fields : list string :=
  [ "current_seat"; "proposed_seats"; "arbitration_agreement_text";
    "institution_rules"; "governing_law" ].


(** *** Presence of a field, in the words of the specification *)

(** A text is non-empty after trimming when some character of it is not
    white space. *)
Definition nonblank (s : jsstring) : Prop :=
  ∃ c, c ∈ s ∧ isWhiteSpace c = false.





(** Whether the check of [computeMissingFromIntake] for field [f] fires. *)
Definition field_missing (i : gmap string jsval) (f : string) : bool :=
  if String.eqb f "proposed_seats" then seatsMissing (get i f)
  else textMissing (get i f).

(** The comma-, semicolon- or newline-separated segments of a text: the
    text is the segments put back together with one separator between
    neighbours, and no segment contains a separator. *)
Inductive Segments : jsstring → list jsstring → Prop :=
| Segments_last s :
    Forall (λ c, isSeparator c = false) s → Segments s [s]
| Segments_more s c raw segs :
    Forall (λ c, isSeparator c = false) s →
    isSeparator c = true →
    Segments raw segs →
    Segments (s ++ c :: raw) (s :: segs).

#[global] Instance nonblank_dec s : Decision (nonblank s).
Proof.
  refine (cast_if (decide (Exists (λ c, isWhiteSpace c = false) s)));
    unfold nonblank; rewrite <- Exists_exists; assumption.
Defined.

(* ===================================================================== *)
(** ** The HTTP client (lib/api.ts) *)
(* ===================================================================== *)

Module Api.

(** [class ApiError extends Error] *)
Record ApiError := {
  message : jsstring;
  status : Z;
  body : jsval;
}.

(** What an awaited promise gives: its value, a thrown [ApiError], or
    another exception (a network failure, a body that does not parse). *)
Inductive outcome (A : Type) :=
| Resolved (a : A)
| ThrewApiError (e : ApiError)
| ThrewOther.
Arguments Resolved {A} a.
Arguments ThrewApiError {A} e.
Arguments ThrewOther {A}.

Record Request := {
  req_url : jsstring;
  req_method : jsstring;
  req_headers : list (jsstring * jsstring);
}.

(** A response of [fetch]: the status line, the [content-type] header,
    and what [res.json()] and [res.text()] resolve to ([None] when the
    promise rejects). *)
Record Response := {
  res_status : Z;
  res_content_type : option jsstring;
  res_json : option jsval;
  res_text : option jsstring;
}.

(** [res.ok]: the status is in the range 200-299. *)
Definition res_ok (res : Response) : bool :=
  ((200 <=? res_status res) && (res_status res <=? 299))%Z.

Definition contentType (res : Response) : jsstring :=
  default [] (res_content_type res).

Definition parseErrorBody (res : Response) : jsval :=
  if includes (lit "application/json") (contentType res)
  then default JUndefined (res_json res)
  else match res_text res with
       | Some t => JStr t
       | None => JUndefined
       end.

(** [typeof body === "object" && body && "detail" in body
      ? body.detail : body] *)
Definition detailOf (body : jsval) : jsval :=
  match body with
  | JObj o => match o !! "detail" with
              | Some d => d
              | None => body
              end
  | _ => body
  end.

Definition errorMessage (detail : jsval) (status : Z) : jsstring :=
  match detail with
  | JStr s => s
  | _ => lit "Request failed (" ++ lit (string_of_Z status) ++ lit ")"
  end.

Section Fetch.
(** The network: what [fetch] answers to a request ([None]: the promise
    rejects), and the access token of the session. *)
Variable API_BASE : jsstring.
Variable fetch : Request → option Response.
Variable getAccessToken : option jsstring.

Definition apiFetch (path method : jsstring) : outcome jsval :=
  let headers := [(lit "Content-Type", lit "application/json")] in
  let headers :=
    match getAccessToken with
    | Some token =>
        if nonEmpty token
        then headers ++ [(lit "Authorization", lit "Bearer " ++ token)]
        else headers
    | None => headers
    end in
  match fetch {| req_url := API_BASE ++ path; req_method := method;
                 req_headers := headers |} with
  | None => ThrewOther
  | Some res =>
      if negb (res_ok res) then
        let body := parseErrorBody res in
        let detail := detailOf body in
        ThrewApiError {| message := errorMessage detail (res_status res);
                         status := res_status res;
                         body := body |}
      else if includes (lit "application/json") (contentType res)
      then match res_json res with
           | Some v => Resolved v
           | None => ThrewOther
           end
      else match res_text res with
           | Some t => Resolved (JStr t)
           | None => ThrewOther
           end
  end.

(** [api.regenerateReport], declared [Promise<{ ok: boolean }>]. *)
Definition regenerateReport (projectId : jsstring) : outcome jsval :=
  apiFetch (lit "/projects/" ++ projectId ++ lit "/report/regenerate")
           (lit "POST").
End Fetch.

(** The shape [{accepted: bool, reason?}] of the specification. *)
Definition accepted_shape (v : jsval) : Prop :=
  ∃ o b, v = JObj o ∧ o !! "accepted" = Some (JBool b)
         ∧ (o !! "reason" = None ∨ ∃ r, o !! "reason" = Some (JStr r)).

Definition returns_accepted_shape (r : outcome jsval) : Prop :=
  ∃ v, r = Resolved v ∧ accepted_shape v.

(** The declared shape [{ ok: boolean }]. *)
Definition ok_shape (v : jsval) : Prop :=
  ∃ b, v = JObj {[ "ok" := JBool b ]}.

End Api.

Import Api.

(* ===================================================================== *)
(** ** The chat page (MainPage.tsx) *)
(* ===================================================================== *)

Module Ui.

Record ProjectOut := {
  project_id : jsstring;
  project_owner_id : jsstring;
  project_title : jsstring;
  project_description : option jsstring;
  project_status : jsstring;
  project_intake : gmap string jsval;
  project_created_at : jsstring;
  project_updated_at : jsstring;
}.

Record ChatMessageOut := {
  cm_id : jsstring;
  cm_role : jsstring;
  cm_content : jsstring;
  cm_created_at : jsstring;
}.

Record SendMessageOut := {
  user_message : ChatMessageOut;
  assistant_message : ChatMessageOut;
}.

Inductive UiRole := RoleUser | RoleAi.

Record UiMessage := {
  ui_role : UiRole;
  ui_content : jsstring;
  ui_id : option jsstring;
  ui_created_at : option jsstring;
}.

(** The React state the chat handlers read and write. *)
Record UiState := {
  guest : bool;
  chattingProject : option ProjectOut;
  projects : list ProjectOut;
  messages : list UiMessage;
  inputMessage : jsstring;
  chatError : option jsstring;
  reportLoading : bool;
}.

Definition setChattingProject (v : option ProjectOut) (st : UiState) : UiState :=
  {| guest := guest st; chattingProject := v; projects := projects st;
     messages := messages st; inputMessage := inputMessage st;
     chatError := chatError st; reportLoading := reportLoading st |}.

Definition setProjects (v : list ProjectOut) (st : UiState) : UiState :=
  {| guest := guest st; chattingProject := chattingProject st; projects := v;
     messages := messages st; inputMessage := inputMessage st;
     chatError := chatError st; reportLoading := reportLoading st |}.

Definition setMessages (v : list UiMessage) (st : UiState) : UiState :=
  {| guest := guest st; chattingProject := chattingProject st;
     projects := projects st; messages := v; inputMessage := inputMessage st;
     chatError := chatError st; reportLoading := reportLoading st |}.

Definition setInputMessage (v : jsstring) (st : UiState) : UiState :=
  {| guest := guest st; chattingProject := chattingProject st;
     projects := projects st; messages := messages st; inputMessage := v;
     chatError := chatError st; reportLoading := reportLoading st |}.

Definition setChatError (v : option jsstring) (st : UiState) : UiState :=
  {| guest := guest st; chattingProject := chattingProject st;
     projects := projects st; messages := messages st;
     inputMessage := inputMessage st; chatError := v;
     reportLoading := reportLoading st |}.

Definition setReportLoading (v : bool) (st : UiState) : UiState :=
  {| guest := guest st; chattingProject := chattingProject st;
     projects := projects st; messages := messages st;
     inputMessage := inputMessage st; chatError := chatError st;
     reportLoading := v |}.

(** What the page does to the outside, in order: the requests it sends,
    with what they resolved to, and the pauses of the poll loop. *)
Inductive Event :=
| SentMessage (projectId message : jsstring)
| GotProject (projectId : jsstring) (result : outcome ProjectOut)
| Regenerated (projectId : jsstring) (result : outcome jsval)
| Slept (ms : Z).

Section Handlers.
(** The backend behind the API: a state, and for each endpoint the
    answer and the state after the request. *)
Context {Server : Type}.
Variable api_sendMessage :
  jsstring → jsstring → Server → outcome SendMessageOut * Server.
Variable api_getProject : jsstring → Server → outcome ProjectOut * Server.
Variable api_regenerateReport : jsstring → Server → outcome jsval * Server.

Record World := {
  server : Server;
  events : list Event;
}.

Definition sendMessage (projectId message : jsstring) (w : World)
    : outcome SendMessageOut * World :=
  let '(r, s) := api_sendMessage projectId message (server w) in
  (r, {| server := s;
         events := events w ++ [SentMessage projectId message] |}).

Definition getProject (projectId : jsstring) (w : World)
    : outcome ProjectOut * World :=
  let '(r, s) := api_getProject projectId (server w) in
  (r, {| server := s; events := events w ++ [GotProject projectId r] |}).

Definition regenerateReport (projectId : jsstring) (w : World)
    : outcome jsval * World :=
  let '(r, s) := api_regenerateReport projectId (server w) in
  (r, {| server := s; events := events w ++ [Regenerated projectId r] |}).

(** [await new Promise((r) => setTimeout(r, ms))] *)
Definition sleep (ms : Z) (w : World) : World :=
  {| server := server w; events := events w ++ [Slept ms] |}.

(** [prev.map((x) => (x.id === p.id ? p : x))] *)
Definition replaceProject (p : ProjectOut) (prev : list ProjectOut)
    : list ProjectOut :=
  map (λ x, if decide (project_id x = project_id p) then p else x) prev.

Definition handleSendMessage (st : UiState) (w : World) : UiState * World :=
  if guest st then
    (setChatError (Some (lit "Login is required to chat.")) st, w)
  else
    match chattingProject st with
    | None => (st, w)
    | Some cp =>
        let msg := trim (inputMessage st) in
        if negb (nonEmpty msg) then (st, w)
        else
          let st := setInputMessage [] st in
          let st := setChatError None st in
          let st :=
            setMessages
              (messages st ++ [{| ui_role := RoleUser; ui_content := msg;
                                  ui_id := None; ui_created_at := None |}])
              st in
          let '(res, w) := sendMessage (project_id cp) msg w in
          match res with
          | Resolved res =>
              let a := assistant_message res in
              let st :=
                setMessages
                  (messages st
                   ++ [{| ui_role := RoleAi; ui_content := cm_content a;
                          ui_id := Some (cm_id a);
                          ui_created_at := Some (cm_created_at a) |}])
                  st in
              let '(r, w) := getProject (project_id cp) w in
              match r with
              | Resolved p =>
                  let st := setChattingProject (Some p) st in
                  let st := setProjects (replaceProject p (projects st)) st in
                  (st, w)
              | _ => (st, w)
              end
          | ThrewApiError e => (setChatError (Some (message e)) st, w)
          | ThrewOther =>
              (setChatError (Some (lit "Failed to send message")) st, w)
          end
    end.

(** The body of [for (let i = 0; i < 25; i++)], by the number of
    iterations that remain. *)
Fixpoint pollLoop (remaining : nat) (projectId : jsstring)
    (st : UiState) (w : World) : UiState * World :=
  match remaining with
  | O => (st, w)
  | S remaining =>
      let '(r, w) := getProject projectId w in
      match r with
      | Resolved p =>
          let st :=
            setChattingProject
              (match chattingProject st with
               | Some cur =>
                   if decide (project_id cur = project_id p)
                   then Some p else Some cur
               | None => None
               end) st in
          let st := setProjects (replaceProject p (projects st)) st in
          if decide (project_status p ≠ lit "working") then (st, w)
          else pollLoop remaining projectId st (sleep 900 w)
      | _ => pollLoop remaining projectId st (sleep 900 w)
      end
  end.

Definition pollProjectUntilNotWorking (projectId : jsstring)
    (st : UiState) (w : World) : UiState * World :=
  pollLoop 25 projectId st w.

Definition handleGenerateReport (st : UiState) (w : World)
    : UiState * World :=
  if guest st then
    (setChatError (Some (lit "Login is required to generate a report.")) st,
     w)
  else
    match chattingProject st with
    | None => (st, w)
    | Some cp =>
        let st := setReportLoading true st in
        let st := setChatError None st in
        let '(r, w) := regenerateReport (project_id cp) w in
        let '(st, w) :=
          match r with
          | Resolved _ =>
              let st :=
                setMessages
                  (messages st
                   ++ [{| ui_role := RoleAi;
                          ui_content :=
                            lit "Report regeneration started for this project.";
                          ui_id := None; ui_created_at := None |}])
                  st in
              pollProjectUntilNotWorking (project_id cp) st w
          | ThrewApiError e => (setChatError (Some (message e)) st, w)
          | ThrewOther =>
              (setChatError (Some (lit "Failed to regenerate report")) st, w)
          end in
        (setReportLoading false st, w)
    end.

(** The polls of a trace. *)
Definition isPoll (e : Event) : bool :=
  match e with GotProject _ _ => true | _ => false end.

Definition pollCount (evs : list Event) : nat :=
  length (filter (λ e, isPoll e = true) evs).

(** A poll that succeeded and saw a status other than ['working']. *)
Definition sawNotWorking (e : Event) : Prop :=
  ∃ projectId p, e = GotProject projectId (Resolved p)
                 ∧ project_status p ≠ lit "working".

(** What one run of the poll loop adds to the trace: at most [n] polls
    and [n] pauses, nothing after a poll that saw a status other than
    ['working'], and fewer than [n] polls only when it ends with such
    a poll. *)
Definition pollTrace (n : nat) (evs : list Event) : Prop :=
  pollCount evs ≤ n
  ∧ length evs ≤ 2 * n
  ∧ (∀ pre e post, evs = pre ++ e :: post → sawNotWorking e → post = [])
  ∧ (pollCount evs < n → ∃ pre e, evs = pre ++ [e] ∧ sawNotWorking e).
End Handlers.

(** [handleCreate]: the payload of the create request, when the form
    passes the checks ([None]: no request is sent). *)
Record CreatePayload := {
  payload_title : jsstring;
  payload_status : option jsstring;
  payload_intake : gmap string jsval;
}.

Definition handleCreate (guest : bool)
    (createTitle createCurrentSeat createProposedSeats
       createAdditionalDetails : jsstring) : option CreatePayload :=
  if guest then None
  else
    let title := trim createTitle in
    if negb (nonEmpty title) then None
    else
      let intake : gmap string jsval :=
        {[ "current_seat" :=
             or_else (JStr (trim createCurrentSeat)) JNull;
           "proposed_seats" :=
             JArr (JStr <$> parseProposedSeats createProposedSeats);
           "additional_details" :=
             or_else (JStr (trim createAdditionalDetails)) JNull ]} in
      Some {| payload_title := title;
              payload_status := Some (lit "working");
              payload_intake := intake |}.

End Ui.

(* ===================================================================== *)
(** ** The [projects] table (migrations) *)
(* ===================================================================== *)

Module Db.

(** A row of [public.projects], with the report columns of the second
    migration. Nullable columns are options. *)
Record project := {
  id : jsstring;
  owner_id : jsstring;
  title : jsstring;
  description : option jsstring;
  status : jsstring;
  intake : jsval;
  created_at : Z;
  updated_at : Z;
  report_bucket : option jsstring;
  report_path : option jsstring;
  report_mime_type : option jsstring;
  report_byte_size : option Z;
  report_generated_at : option Z;
  report_error : option jsstring;
}.

(** [check (status in ('working','complete','intervention'))] *)
Definition status_check (s : jsstring) : bool :=
  bool_decide (s ∈ [lit "working"; lit "complete"; lit "intervention"]).

(** The table, by primary key. *)
Abbreviation table := (gmap jsstring project).

Inductive error := UniqueViolation | CheckViolation.

(** [insert into public.projects ...]: the key must be new and the row
    must pass the check constraint. *)
Definition insert (r : project) (t : table) : table + error :=
  match t !! id r with
  | Some _ => inr UniqueViolation
  | None => if status_check (status r) then inl (<[id r := r]> t)
            else inr CheckViolation
  end.

(** An insert that names the columns a create request carries: the columns
    it leaves out take their defaults, ['working'] for [status], ['{}']
    for [intake], [now()] for the time stamps and [NULL] for the rest. *)
Definition insert_new (new_id owner new_title : jsstring)
    (new_status : option jsstring) (new_intake : option jsval) (now : Z)
    (t : table) : table + error :=
  insert {| id := new_id; owner_id := owner; title := new_title;
            description := None;
            status := default (lit "working") new_status;
            intake := default (JObj ∅) new_intake;
            created_at := now; updated_at := now;
            report_bucket := None; report_path := None;
            report_mime_type := None; report_byte_size := None;
            report_generated_at := None; report_error := None |} t.

(** [update public.projects set ... where id = k]: [set] computes the new
    values of the columns other than the key; the new row must pass the
    check constraint, and the trigger stamps [updated_at]. *)
Definition with_key (k : jsstring) (r : project) : project :=
  {| id := k; owner_id := owner_id r; title := title r;
     description := description r; status := status r; intake := intake r;
     created_at := created_at r; updated_at := updated_at r;
     report_bucket := report_bucket r; report_path := report_path r;
     report_mime_type := report_mime_type r;
     report_byte_size := report_byte_size r;
     report_generated_at := report_generated_at r;
     report_error := report_error r |}.

Definition set_updated_at (now : Z) (r : project) : project :=
  {| id := id r; owner_id := owner_id r; title := title r;
     description := description r; status := status r; intake := intake r;
     created_at := created_at r; updated_at := now;
     report_bucket := report_bucket r; report_path := report_path r;
     report_mime_type := report_mime_type r;
     report_byte_size := report_byte_size r;
     report_generated_at := report_generated_at r;
     report_error := report_error r |}.

Definition update (k : jsstring) (set : project → project) (now : Z)
    (t : table) : table + error :=
  match t !! k with
  | None => inl t
  | Some old =>
      let new := set_updated_at now (with_key k (set old)) in
      if status_check (status new) then inl (<[k := new]> t)
      else inr CheckViolation
  end.

(** [delete from public.projects where id = k] *)
Definition remove (k : jsstring) (t : table) : table + error :=
  inl (delete k t).

Inductive statement :=
| Insert (r : project)
| InsertNew (new_id owner new_title : jsstring)
    (new_status : option jsstring) (new_intake : option jsval) (now : Z)
| Update (k : jsstring) (set : project → project) (now : Z)
| Delete (k : jsstring).

Definition exec (s : statement) (t : table) : table + error :=
  match s with
  | Insert r => insert r t
  | InsertNew i o ti st ik now => insert_new i o ti st ik now t
  | Update k set now => update k set now t
  | Delete k => remove k t
  end.

(** A statement that fails leaves the table as it was. *)
Definition run1 (t : table) (s : statement) : table :=
  match exec s t with
  | inl t' => t'
  | inr _ => t
  end.

Definition run (ss : list statement) (t : table) : table :=
  fold_left run1 ss t.

Definition status_valid (r : project) : Prop :=
  status r = lit "working" ∨ status r = lit "complete"
  ∨ status r = lit "intervention".

End Db.

(* ===================================================================== *)
(** ** The status state machine and the report orchestrator *)
(* ===================================================================== *)

Module Orchestrator.

(** Modelled from the spec: the backend that moves a project between its
    states and runs report generation is not among the sources (the
    frontend only calls its endpoints, the migrations only declare its
    columns). The states, the transitions and their side effects are those
    of section 4.2, the regenerate path is that of sections 4.4 and 5; the
    report columns are those of the second migration. *)
Inductive Status := working | complete | intervention.

(** Modelled from the spec: two states are the same or not. *)
#[global] Instance Status_eq_dec : EqDecision Status.
Proof. solve_decision. Defined.

(** Modelled from the spec: a project owns an intake, a status and the
    report metadata; [report_location] is the pair of [report_bucket] and
    [report_path]. *)
Record Project := {
  status : Status;
  intake : gmap string jsval;
  report_bucket : option jsstring;
  report_path : option jsstring;
  report_generated_at : option Z;
  report_error : option jsstring;
}.

(** Modelled from the spec: [missing_fields] of section 4.1 is the
    computation of the frontend. *)
Definition missing_fields (i : gmap string jsval) : list string :=
  computeMissingFromIntake (Some i).

(** Modelled from the spec: a project is created with status [working],
    the intake supplied at creation and no report metadata. *)
Definition created (i : gmap string jsval) : Project :=
  {| status := working; intake := i;
     report_bucket := None; report_path := None;
     report_generated_at := None; report_error := None |}.

(** Modelled from the spec: a change of status alone. *)
Definition set_status (s : Status) (p : Project) : Project :=
  {| status := s; intake := intake p;
     report_bucket := report_bucket p; report_path := report_path p;
     report_generated_at := report_generated_at p;
     report_error := report_error p |}.

(** Modelled from the spec: a change of intake alone. *)
Definition set_intake (i : gmap string jsval) (p : Project) : Project :=
  {| status := status p; intake := i;
     report_bucket := report_bucket p; report_path := report_path p;
     report_generated_at := report_generated_at p;
     report_error := report_error p |}.

(** Modelled from the spec: what drives the transitions of section 4.2.
    - [AttemptFailed]: a generation attempt was run and a field is
      missing, or report production failed;
    - [AttemptSucceeded]: a generation attempt ran, no field is missing
      and report production succeeded;
    - [IntakeUpdated]: the intake is updated, from the chat or by an edit;
    - [RegenerateRequested]: the user asks for a regeneration. *)
Inductive Trigger :=
| AttemptFailed (err : jsstring)
| AttemptSucceeded (bucket path : jsstring) (now : Z)
| IntakeUpdated (i : gmap string jsval)
| RegenerateRequested.

(** Modelled from the spec: the transitions of section 4.2 with the side
    effects listed there and no other; [None] when the trigger has no
    legal transition in the state. *)
Definition transition (t : Trigger) (p : Project) : option Project :=
  match t, status p with
  | AttemptFailed err, working =>
      (* working -> intervention: set report_error *)
      Some {| status := intervention; intake := intake p;
              report_bucket := report_bucket p; report_path := report_path p;
              report_generated_at := report_generated_at p;
              report_error := Some err |}
  | AttemptSucceeded bucket path now, working =>
      (* working -> complete: set report_location, report_generated_at;
         clear report_error *)
      match missing_fields (intake p) with
      | [] => Some {| status := complete; intake := intake p;
                      report_bucket := Some bucket; report_path := Some path;
                      report_generated_at := Some now;
                      report_error := None |}
      | _ :: _ => None
      end
  | IntakeUpdated i, intervention =>
      (* intervention -> working, when the missing-fields set changes *)
      if decide (missing_fields i = missing_fields (intake p))
      then Some (set_intake i p)
      else Some (set_status working (set_intake i p))
  | IntakeUpdated i, complete =>
      (* complete -> working: the report is stale *)
      Some (set_status working (set_intake i p))
  | IntakeUpdated i, working => Some (set_intake i p)
  | RegenerateRequested, intervention =>
      (* intervention -> working, unless fields are still missing *)
      match missing_fields (intake p) with
      | [] => Some (set_status working p)
      | _ :: _ => None
      end
  | RegenerateRequested, complete => Some (set_status working p)
  | RegenerateRequested, working => Some p
  | _, _ => None
  end.

(** Modelled from the spec: a project with the count of the generation
    attempts that ended in failure and in success ("a generation attempt
    was made"). *)
Record Tracked := {
  project : Project;
  failures : nat;
  successes : nat;
}.

(** Modelled from the spec: a trigger takes its transition when it has
    one and leaves the project alone when it has none. *)
Definition track (t : Trigger) (k : Tracked) : Tracked :=
  match transition t (project k) with
  | None => k
  | Some p =>
      {| project := p;
         failures := match t with
                     | AttemptFailed _ => S (failures k)
                     | _ => failures k
                     end;
         successes := match t with
                      | AttemptSucceeded _ _ _ => S (successes k)
                      | _ => successes k
                      end |}
  end.

(** Modelled from the spec: the states a project created with intake
    [i] goes through. *)
Definition run (ts : list Trigger) (i : gmap string jsval) : Tracked :=
  fold_left (λ k t, track t k) ts
            {| project := created i; failures := 0; successes := 0 |}.



(** *** The regenerate path *)

(** Modelled from the spec: the orchestrator keeps the projects, the
    generations in flight (project and attempt number) and the log of
    every generation execution it started. *)
Record Orch := {
  projects : gmap jsstring Project;
  running : list (jsstring * nat);
  started : list (jsstring * nat);
}.


(** Modelled from the spec: what a regenerate request is answered. *)
Inductive Reply :=
| Started (attempt : nat)
| AlreadyRunning (attempt : nat)
| StillMissing (fields : list string)
| NotFound.


(** Modelled from the spec: the generations of a project that are in
    flight. *)
Definition active (projectId : jsstring) (o : Orch) : list nat :=
  snd <$> filter (λ g, g.1 = projectId) (running o).

(** Modelled from the spec: [regenerate]. A request while a generation
    of the project is in flight is a no-op that returns the running
    attempt; a request with missing fields fails fast with the fields
    still missing and starts nothing; otherwise the project goes to
    [working] and one generation starts. *)
Definition regenerate (projectId : jsstring) (o : Orch) : Reply * Orch :=
  match projects o !! projectId with
  | None => (NotFound, o)
  | Some p =>
      match active projectId o with
      | a :: _ => (AlreadyRunning a, o)
      | [] =>
          match missing_fields (intake p) with
          | [] =>
              let a := length (started o) in
              (Started a,
               {| projects := <[projectId := set_status working p]> (projects o);
                  running := running o ++ [(projectId, a)];
                  started := started o ++ [(projectId, a)] |})
          | m :: ms => (StillMissing (m :: ms), o)
          end
      end
  end.

(** Modelled from the spec: how report production ends. *)
Inductive Result :=
| Produced (bucket path : jsstring) (now : Z)
| Failed (err : jsstring).




(** Modelled from the spec: what reaches the orchestrator. *)
Inductive Request :=
| Create (projectId : jsstring) (i : gmap string jsval)
| Edit (projectId : jsstring) (i : gmap string jsval)
| Regenerate (projectId : jsstring)
| Finish (projectId : jsstring) (res : Result).



(** Modelled from the spec: the generation executions started for a
    project. *)
Definition executions (projectId : jsstring) (o : Orch) : list nat :=
  snd <$> filter (λ g, g.1 = projectId) (started o).

(** *** The orchestrator behind the endpoints of the client *)

(** Modelled from the spec: the status as the API prints it. *)
Definition status_text (s : Status) : jsstring :=
  match s with
  | working => lit "working"
  | complete => lit "complete"
  | intervention => lit "intervention"
  end.

(** Modelled from the spec: the reply [{accepted: bool, reason?}] of the
    exposed [regenerate] operation (section 6). *)
Definition reply_json (r : Reply) : jsval :=
  match r with
  | Started _ => JObj {[ "accepted" := JBool true ]}
  | AlreadyRunning _ =>
      JObj {[ "accepted" := JBool true;
              "reason" := JStr (lit "generation already in flight") ]}
  | StillMissing _ =>
      JObj {[ "accepted" := JBool false;
              "reason" := JStr (lit "still missing fields") ]}
  | NotFound =>
      JObj {[ "accepted" := JBool false;
              "reason" := JStr (lit "project not found") ]}
  end.

(** Modelled from the spec: the regenerate endpoint runs [regenerate]. *)
Definition endpoint_regenerate (projectId : jsstring) (o : Orch)
    : outcome jsval * Orch :=
  let '(r, o) := regenerate projectId o in (Resolved (reply_json r), o).

(** Modelled from the spec: the read-only snapshot of a project. *)
Definition endpoint_getProject (projectId : jsstring) (o : Orch)
    : outcome Ui.ProjectOut * Orch :=
  match projects o !! projectId with
  | Some p =>
      (Resolved {| Ui.project_id := projectId; Ui.project_owner_id := [];
                   Ui.project_title := []; Ui.project_description := None;
                   Ui.project_status := status_text (status p);
                   Ui.project_intake := intake p;
                   Ui.project_created_at := []; Ui.project_updated_at := [] |},
       o)
  | None =>
      (ThrewApiError {| message := lit "Project not found"; Api.status := 404;
                        body := JUndefined |}, o)
  end.

End Orchestrator.

(* ===================================================================== *)
(** ** Sample data *)
(* ===================================================================== *)

Import Ui.

(** An intake with every required field filled in, and one whose
    governing law is blank. *)
Definition complete_intake : gmap string jsval :=
  {[ "current_seat" := JStr (lit " Paris ");
     "proposed_seats" := JArr [JStr (lit "  "); JStr (lit "Geneva")];
     "arbitration_agreement_text" := JStr (lit "Clause 12");
     "institution_rules" := JStr (lit "ICC");
     "governing_law" := JStr (lit "Swiss law") ]}.

(** A server that refuses the request, and one that accepts it with the
    body the client declares. *)
Definition refusing_fetch (_ : Request) : option Response :=
  Some {| res_status := 400;
          res_content_type := Some (lit "application/json");
          res_json := Some (JObj {[ "detail" := JStr (lit "still missing fields") ]});
          res_text := None |}.

Definition accepting_fetch (_ : Request) : option Response :=
  Some {| res_status := 200;
          res_content_type := Some (lit "application/json");
          res_json := Some (JObj {[ "ok" := JBool true ]});
          res_text := None |}.

(** A backend that answers every poll with a finished project, and a page
    with a blank message typed in. *)
Definition finished_project : ProjectOut :=
  {| project_id := lit "p1"; project_owner_id := lit "u1";
     project_title := lit "Seat change"; project_description := None;
     project_status := lit "complete"; project_intake := complete_intake;
     project_created_at := lit "2025-01-01"; project_updated_at := lit "2025-01-02" |}.

Definition quiet_sendMessage (_ _ : jsstring) (s : unit)
    : outcome SendMessageOut * unit := (ThrewOther, s).

Definition finished_getProject (_ : jsstring) (s : unit)
    : outcome ProjectOut * unit := (Resolved finished_project, s).

Definition blank_page : UiState :=
  {| guest := false; chattingProject := Some finished_project;
     projects := [finished_project]; messages := [];
     inputMessage := lit "   "; chatError := None; reportLoading := false |}.

Definition quiet_world : World := {| server := tt; events := [] |}.

(* ===================================================================== *)
(** ** The session store (lib/auth.ts) *)
(* ===================================================================== *)

Module Auth.

Record AuthSession := {
  accessToken : jsstring;
  refreshToken : option jsstring;
}.

(** [localStorage]: string keys to string values. *)
Abbreviation Storage := (gmap string jsstring).

Definition ACCESS_TOKEN_KEY : string := "access_token".
Definition REFRESH_TOKEN_KEY : string := "refresh_token".
Definition GUEST_MODE_KEY : string := "guest_mode".

Definition getAccessToken (ls : Storage) : option jsstring :=
  ls !! ACCESS_TOKEN_KEY.

Definition getRefreshToken (ls : Storage) : option jsstring :=
  ls !! REFRESH_TOKEN_KEY.

Definition saveSession (session : AuthSession) (ls : Storage) : Storage :=
  let ls := <[ACCESS_TOKEN_KEY := accessToken session]> ls in
  let ls :=
    match refreshToken session with
    | Some r => if nonEmpty r then <[REFRESH_TOKEN_KEY := r]> ls
                else delete REFRESH_TOKEN_KEY ls
    | None => delete REFRESH_TOKEN_KEY ls
    end in
  delete GUEST_MODE_KEY ls.

Definition clearSession (ls : Storage) : Storage :=
  delete GUEST_MODE_KEY (delete REFRESH_TOKEN_KEY (delete ACCESS_TOKEN_KEY ls)).

Definition enableGuestMode (ls : Storage) : Storage :=
  <[GUEST_MODE_KEY := lit "1"]> (clearSession ls).

Definition isGuestMode (ls : Storage) : bool :=
  bool_decide (ls !! GUEST_MODE_KEY = Some (lit "1")).

(** [!!getAccessToken() && !isGuestMode()] *)
Definition isAuthenticated (ls : Storage) : bool :=
  match getAccessToken ls with
  | Some t => nonEmpty t
  | None => false
  end && negb (isGuestMode ls).

End Auth.

(* ===================================================================== *)
(** ** The project pages (MainPage.tsx, continued) *)
(* ===================================================================== *)

Module Page.

Import Ui.

(** *** File lists of the forms *)

(** [setter((prev) => [...prev, ...files])] *)
Definition addFiles {A} (files prev : list A) : list A := prev ++ files.

(** [prev.filter((_, i) => i !== index)], with the index of the element
    counted from [i]. *)
Fixpoint filterIndex {A} (index i : nat) (prev : list A) : list A :=
  match prev with
  | [] => []
  | x :: r =>
      if negb (i =? index)%nat then x :: filterIndex index (S i) r
      else filterIndex index (S i) r
  end.

Definition removeFile {A} (index : nat) (prev : list A) : list A :=
  filterIndex index 0 prev.

(** *** The edit form *)

(** [a ?? b] *)
Definition nullish (a b : jsval) : jsval :=
  match a with
  | JUndefined | JNull => b
  | _ => a
  end.

(** [l.join(sep)]: [null] and [undefined] elements print as nothing. *)
Definition joinElement (x : jsval) : jsstring :=
  match x with
  | JUndefined | JNull => []
  | _ => ToString x
  end.

Fixpoint joinWith (sep : jsstring) (l : list jsval) : jsstring :=
  match l with
  | [] => []
  | x :: r =>
      match r with
      | [] => joinElement x
      | _ :: _ => joinElement x ++ sep ++ joinWith sep r
      end
  end.

(** What [startEdit] puts in the fields of the edit form. *)
Record EditForm := {
  editTitle : jsval;
  editCurrentSeat : jsval;
  editProposedSeats : jsval;
  editAdditionalDetails : jsval;
}.

Definition startEdit (project : ProjectOut) : EditForm :=
  let ps := get (project_intake project) "proposed_seats" in
  {| editTitle := JStr (project_title project);
     editCurrentSeat :=
       nullish (get (project_intake project) "current_seat") (JStr []);
     editProposedSeats :=
       match ps with
       | JArr l => JStr (joinWith (lit ", ") l)
       | _ => nullish ps (JStr [])
       end;
     editAdditionalDetails :=
       nullish (get (project_intake project) "additional_details") (JStr []) |}.

(** The intake [handleSaveEdit] sends: the stored intake with the three
    fields of the form written over it. *)
Definition editedIntake (old : gmap string jsval)
    (editCurrentSeat editProposedSeats editAdditionalDetails : jsstring)
    : gmap string jsval :=
  <["additional_details" :=
      or_else (JStr (trim editAdditionalDetails)) JNull]>
    (<["proposed_seats" :=
         JArr (JStr <$> parseProposedSeats editProposedSeats)]>
       (<["current_seat" := or_else (JStr (trim editCurrentSeat)) JNull]> old)).

(** [handleSaveEdit], up to the update request it sends. *)
Inductive EditOutcome :=
| EditNothing
| EditError (msg : jsstring)
| EditSubmit (id title : jsstring) (intake : gmap string jsval).

Definition handleSaveEdit (guest : bool) (editingProject : option ProjectOut)
    (editTitle editCurrentSeat editProposedSeats
       editAdditionalDetails : jsstring) : EditOutcome :=
  match editingProject with
  | None => EditNothing
  | Some ep =>
      if guest then EditError (lit "Login is required to edit projects.")
      else
        let title := trim editTitle in
        if negb (nonEmpty title) then EditError (lit "Title is required.")
        else
          EditSubmit (project_id ep) title
            (editedIntake (project_intake ep) editCurrentSeat
               editProposedSeats editAdditionalDetails)
  end.

(** The text after [Missing:] in the intervention notice:
    [computeMissingFromIntake(intake).join(", ") || "(unknown)"]. *)
Definition missingNotice (intake : option (gmap string jsval)) : jsstring :=
  let joined :=
    joinWith (lit ", ") ((λ f, JStr (lit f)) <$> computeMissingFromIntake intake) in
  if nonEmpty joined then joined else lit "(unknown)".

(** *** Loading, deleting, chatting, previewing *)

(** The rest of the React state these handlers touch. *)
Record PageState := {
  ui : UiState;
  projectsLoading : bool;
  projectsError : option jsstring;
  projectsFetchInFlight : bool;
  chatLoading : bool;
  previewingProject : option (jsstring * jsstring);
  reportPreviewLoading : bool;
  reportPreviewError : option jsstring;
  reportPreviewText : jsstring;
  reportPreviewUrl : option jsstring;
}.

Definition setUi (v : UiState) (st : PageState) : PageState :=
  {| ui := v; projectsLoading := projectsLoading st;
     projectsError := projectsError st;
     projectsFetchInFlight := projectsFetchInFlight st;
     chatLoading := chatLoading st; previewingProject := previewingProject st;
     reportPreviewLoading := reportPreviewLoading st;
     reportPreviewError := reportPreviewError st;
     reportPreviewText := reportPreviewText st;
     reportPreviewUrl := reportPreviewUrl st |}.

Definition setProjectsLoading (v : bool) (st : PageState) : PageState :=
  {| ui := ui st; projectsLoading := v;
     projectsError := projectsError st;
     projectsFetchInFlight := projectsFetchInFlight st;
     chatLoading := chatLoading st; previewingProject := previewingProject st;
     reportPreviewLoading := reportPreviewLoading st;
     reportPreviewError := reportPreviewError st;
     reportPreviewText := reportPreviewText st;
     reportPreviewUrl := reportPreviewUrl st |}.

Definition setProjectsError (v : option jsstring) (st : PageState) : PageState :=
  {| ui := ui st; projectsLoading := projectsLoading st;
     projectsError := v;
     projectsFetchInFlight := projectsFetchInFlight st;
     chatLoading := chatLoading st; previewingProject := previewingProject st;
     reportPreviewLoading := reportPreviewLoading st;
     reportPreviewError := reportPreviewError st;
     reportPreviewText := reportPreviewText st;
     reportPreviewUrl := reportPreviewUrl st |}.

Definition setFetchInFlight (v : bool) (st : PageState) : PageState :=
  {| ui := ui st; projectsLoading := projectsLoading st;
     projectsError := projectsError st;
     projectsFetchInFlight := v;
     chatLoading := chatLoading st; previewingProject := previewingProject st;
     reportPreviewLoading := reportPreviewLoading st;
     reportPreviewError := reportPreviewError st;
     reportPreviewText := reportPreviewText st;
     reportPreviewUrl := reportPreviewUrl st |}.

Definition setChatLoading (v : bool) (st : PageState) : PageState :=
  {| ui := ui st; projectsLoading := projectsLoading st;
     projectsError := projectsError st;
     projectsFetchInFlight := projectsFetchInFlight st;
     chatLoading := v; previewingProject := previewingProject st;
     reportPreviewLoading := reportPreviewLoading st;
     reportPreviewError := reportPreviewError st;
     reportPreviewText := reportPreviewText st;
     reportPreviewUrl := reportPreviewUrl st |}.

Definition setPreviewingProject (v : option (jsstring * jsstring))
    (st : PageState) : PageState :=
  {| ui := ui st; projectsLoading := projectsLoading st;
     projectsError := projectsError st;
     projectsFetchInFlight := projectsFetchInFlight st;
     chatLoading := chatLoading st; previewingProject := v;
     reportPreviewLoading := reportPreviewLoading st;
     reportPreviewError := reportPreviewError st;
     reportPreviewText := reportPreviewText st;
     reportPreviewUrl := reportPreviewUrl st |}.

Definition setReportPreviewLoading (v : bool) (st : PageState) : PageState :=
  {| ui := ui st; projectsLoading := projectsLoading st;
     projectsError := projectsError st;
     projectsFetchInFlight := projectsFetchInFlight st;
     chatLoading := chatLoading st; previewingProject := previewingProject st;
     reportPreviewLoading := v;
     reportPreviewError := reportPreviewError st;
     reportPreviewText := reportPreviewText st;
     reportPreviewUrl := reportPreviewUrl st |}.

Definition setReportPreviewError (v : option jsstring) (st : PageState)
    : PageState :=
  {| ui := ui st; projectsLoading := projectsLoading st;
     projectsError := projectsError st;
     projectsFetchInFlight := projectsFetchInFlight st;
     chatLoading := chatLoading st; previewingProject := previewingProject st;
     reportPreviewLoading := reportPreviewLoading st;
     reportPreviewError := v;
     reportPreviewText := reportPreviewText st;
     reportPreviewUrl := reportPreviewUrl st |}.

Definition setReportPreviewText (v : jsstring) (st : PageState) : PageState :=
  {| ui := ui st; projectsLoading := projectsLoading st;
     projectsError := projectsError st;
     projectsFetchInFlight := projectsFetchInFlight st;
     chatLoading := chatLoading st; previewingProject := previewingProject st;
     reportPreviewLoading := reportPreviewLoading st;
     reportPreviewError := reportPreviewError st;
     reportPreviewText := v;
     reportPreviewUrl := reportPreviewUrl st |}.

Definition setReportPreviewUrl (v : option jsstring) (st : PageState)
    : PageState :=
  {| ui := ui st; projectsLoading := projectsLoading st;
     projectsError := projectsError st;
     projectsFetchInFlight := projectsFetchInFlight st;
     chatLoading := chatLoading st; previewingProject := previewingProject st;
     reportPreviewLoading := reportPreviewLoading st;
     reportPreviewError := reportPreviewError st;
     reportPreviewText := reportPreviewText st;
     reportPreviewUrl := v |}.

(** The requests these handlers send, in order. *)
Inductive Call :=
| ListProjects
| DeleteProject (projectId : jsstring)
| ListMessages (projectId : jsstring)
| GetReportUrl (projectId : jsstring)
| GetReportText (projectId : jsstring).

(** [err instanceof ApiError ? err.message : fallback], for a promise that
    rejected. *)
Definition errorText {A} (r : outcome A) (fallback : jsstring) : jsstring :=
  match r with
  | ThrewApiError e => message e
  | _ => fallback
  end.

Section Handlers.
Context {Server : Type}.
Variable api_listProjects : Server → outcome (list ProjectOut) * Server.
Variable api_deleteProject : jsstring → Server → outcome unit * Server.
Variable api_listMessages :
  jsstring → Server → outcome (list ChatMessageOut) * Server.
Variable api_getReportUrl : jsstring → Server → outcome jsstring * Server.
Variable api_getReportText : jsstring → Server → outcome jsstring * Server.

Record Net := {
  backend : Server;
  calls : list Call;
}.

Definition request {A} (c : Call) (f : Server → outcome A * Server) (n : Net)
    : outcome A * Net :=
  let '(r, s) := f (backend n) in
  (r, {| backend := s; calls := calls n ++ [c] |}).

Definition loadProjects (silent : bool) (st : PageState) (n : Net)
    : PageState * Net :=
  if guest (ui st) then (setUi (setProjects [] (ui st)) st, n)
  else if projectsFetchInFlight st then (st, n)
  else
    let st := setFetchInFlight true st in
    let st := if negb silent then setProjectsLoading true st else st in
    let st := setProjectsError None st in
    let '(r, n) := request ListProjects api_listProjects n in
    let st :=
      match r with
      | Resolved data => setUi (setProjects data (ui st)) st
      | _ => setProjectsError (Some (errorText r (lit "Failed to load projects"))) st
      end in
    let st := if negb silent then setProjectsLoading false st else st in
    let st := setFetchInFlight false st in
    (st, n).

Definition handleDeleteProject (projectId : jsstring) (st : PageState)
    (n : Net) : PageState * Net :=
  if guest (ui st) then
    (setProjectsError (Some (lit "Login is required to delete projects.")) st,
     n)
  else
    let '(r, n) := request (DeleteProject projectId)
                     (api_deleteProject projectId) n in
    match r with
    | Resolved _ => loadProjects false st n
    | _ =>
        (setProjectsError
           (Some (errorText r (lit "Failed to delete project"))) st, n)
    end.

(** One message of the history, as the chat shows it. *)
Definition shown (m : ChatMessageOut) : UiMessage :=
  {| ui_id := Some (cm_id m);
     ui_created_at := Some (cm_created_at m);
     ui_role := if decide (cm_role m = lit "assistant") then RoleAi
                else RoleUser;
     ui_content := cm_content m |}.

Definition greeting (project : ProjectOut) : UiMessage :=
  {| ui_role := RoleAi;
     ui_content :=
       if decide (project_status project = lit "intervention")
       then lit "This project is marked Intervention Required. Ask what is missing (or provide the missing details) and I can regenerate the report."
       else lit "You're chatting about " ++ [34%N] ++ project_title project
              ++ [34%N]
              ++ lit ". Ask a question or paste context.";
     ui_id := None; ui_created_at := None |}.

Definition startChat (project : ProjectOut) (st : PageState) (n : Net)
    : PageState * Net :=
  let st := setUi (setChattingProject (Some project) (ui st)) st in
  let st := setUi (setChatError None (ui st)) st in
  let st := setUi (setMessages [] (ui st)) st in
  if guest (ui st) then
    (setUi
       (setMessages
          [{| ui_role := RoleAi;
              ui_content :=
                lit "Guest mode: login is required to use the project chat (and to save messages).";
              ui_id := None; ui_created_at := None |}]
          (ui st)) st, n)
  else
    let st := setChatLoading true st in
    let '(r, n) := request (ListMessages (project_id project))
                     (api_listMessages (project_id project)) n in
    let st :=
      match r with
      | Resolved hist =>
          match hist with
          | [] => setUi (setMessages [greeting project] (ui st)) st
          | _ :: _ => setUi (setMessages (map shown hist) (ui st)) st
          end
      | _ =>
          setUi (setChatError
                   (Some (errorText r (lit "Failed to load chat"))) (ui st)) st
      end in
    (setChatLoading false st, n).

Definition openPreview (project : ProjectOut) (st : PageState) (n : Net)
    : PageState * Net :=
  if decide (project_status project ≠ lit "complete") then (st, n)
  else
    let st :=
      setPreviewingProject (Some (project_id project, project_title project))
        st in
    let st := setReportPreviewLoading true st in
    let st := setReportPreviewError None st in
    let st := setReportPreviewText [] st in
    let st := setReportPreviewUrl None st in
    let '(r, n) := request (GetReportUrl (project_id project))
                     (api_getReportUrl (project_id project)) n in
    let '(st, n) :=
      match r with
      | Resolved download_url =>
          let st := setReportPreviewUrl (Some download_url) st in
          let '(r, n) := request (GetReportText (project_id project))
                           (api_getReportText (project_id project)) n in
          match r with
          | Resolved text =>
              (setReportPreviewText (if nonEmpty text then text else []) st,
               n)
          | _ =>
              (setReportPreviewError
                 (Some (errorText r (lit "Failed to load report preview"))) st,
               n)
          end
      | _ =>
          (setReportPreviewError
             (Some (errorText r (lit "Failed to load report preview"))) st, n)
      end in
    (setReportPreviewLoading false st, n).

End Handlers.

End Page.

(* ===================================================================== *)
(** ** Documents and messages (migrations/001_init.sql) *)
(* ===================================================================== *)

Module Schema.

(** A row of [public.documents]. *)
Record document := {
  doc_id : jsstring;
  doc_project_id : jsstring;
  doc_owner_id : jsstring;
  filename : jsstring;
  storage_bucket : jsstring;
  storage_path : jsstring;
  mime_type : option jsstring;
  byte_size : option Z;
  doc_created_at : Z;
}.

(** A row of [public.messages]. *)
Record message := {
  msg_id : jsstring;
  msg_project_id : jsstring;
  msg_owner_id : jsstring;
  role : jsstring;
  content : jsstring;
  msg_created_at : Z;
}.

(** [check (role in ('user','assistant','system'))] *)
Definition role_check (r : jsstring) : bool :=
  bool_decide (r ∈ [lit "user"; lit "assistant"; lit "system"]).

(** The three tables, each by primary key. *)
Record database := {
  projects : gmap jsstring Db.project;
  documents : gmap jsstring document;
  messages : gmap jsstring message;
}.

Definition empty : database :=
  {| projects := ∅; documents := ∅; messages := ∅ |}.

Inductive error :=
| UniqueViolation
| CheckViolation
| ForeignKeyViolation.

Definition of_project_error (e : Db.error) : error :=
  match e with
  | Db.UniqueViolation => UniqueViolation
  | Db.CheckViolation => CheckViolation
  end.

(** A statement on [public.projects] other than a delete. *)
Definition on_projects (f : Db.table → Db.table + Db.error) (db : database)
    : database + error :=
  match f (projects db) with
  | inl t => inl {| projects := t; documents := documents db;
                    messages := messages db |}
  | inr e => inr (of_project_error e)
  end.

(** [delete from public.projects where id = k]: the documents and the
    messages of the project go with it ([on delete cascade]). *)
Definition delete_project (k : jsstring) (db : database) : database :=
  {| projects := delete k (projects db);
     documents := filter (λ kd, doc_project_id kd.2 ≠ k) (documents db);
     messages := filter (λ km, msg_project_id km.2 ≠ k) (messages db) |}.

(** [insert into public.documents ...]: the key must be new and
    [project_id] must reference a project. *)
Definition insert_document (d : document) (db : database) : database + error :=
  match documents db !! doc_id d with
  | Some _ => inr UniqueViolation
  | None =>
      match projects db !! doc_project_id d with
      | None => inr ForeignKeyViolation
      | Some _ =>
          inl {| projects := projects db;
                 documents := <[doc_id d := d]> (documents db);
                 messages := messages db |}
      end
  end.

(** [insert into public.messages ...]: the key must be new, the role must
    pass its check and [project_id] must reference a project. *)
Definition insert_message (m : message) (db : database) : database + error :=
  match messages db !! msg_id m with
  | Some _ => inr UniqueViolation
  | None =>
      if role_check (role m) then
        match projects db !! msg_project_id m with
        | None => inr ForeignKeyViolation
        | Some _ =>
            inl {| projects := projects db; documents := documents db;
                   messages := <[msg_id m := m]> (messages db) |}
        end
      else inr CheckViolation
  end.

Definition delete_document (k : jsstring) (db : database) : database :=
  {| projects := projects db; documents := delete k (documents db);
     messages := messages db |}.

Definition delete_message (k : jsstring) (db : database) : database :=
  {| projects := projects db; documents := documents db;
     messages := delete k (messages db) |}.

Inductive statement :=
| InsertProject (r : Db.project)
| UpdateProject (k : jsstring) (set : Db.project → Db.project) (now : Z)
| DeleteProject (k : jsstring)
| InsertDocument (d : document)
| DeleteDocument (k : jsstring)
| InsertMessage (m : message)
| DeleteMessage (k : jsstring).

Definition exec (s : statement) (db : database) : database + error :=
  match s with
  | InsertProject r => on_projects (Db.insert r) db
  | UpdateProject k set now => on_projects (Db.update k set now) db
  | DeleteProject k => inl (delete_project k db)
  | InsertDocument d => insert_document d db
  | DeleteDocument k => inl (delete_document k db)
  | InsertMessage m => insert_message m db
  | DeleteMessage k => inl (delete_message k db)
  end.

(** A statement that fails leaves the database as it was. *)
Definition run1 (db : database) (s : statement) : database :=
  match exec s db with
  | inl db' => db'
  | inr _ => db
  end.

Definition run (ss : list statement) (db : database) : database :=
  fold_left run1 ss db.

(** Every document and every message belongs to a project of the
    database. *)
Definition referential (db : database) : Prop :=
  map_Forall (λ _ d, is_Some (projects db !! doc_project_id d)) (documents db)
  ∧ map_Forall (λ _ m, is_Some (projects db !! msg_project_id m)) (messages db).

(** The roles the check constraint admits. *)
Definition role_valid (m : message) : Prop :=
  role m = lit "user" ∨ role m = lit "assistant" ∨ role m = lit "system".

End Schema.

(* ===================================================================== *)
(** ** The login page (LoginPage.tsx) *)
(* ===================================================================== *)

Module Login.

Record Session := {
  access_token : jsstring;
  refresh_token : option jsstring;
}.

Record AuthResponse := {
  user_id : jsstring;
  email : option jsstring;
  session : Session;
}.

Record LoginState := {
  isLogin : bool;
  loginEmail : jsstring;
  loginPassword : jsstring;
  registerEmail : jsstring;
  registerPassword : jsstring;
  loading : bool;
  error : option jsstring;
}.

Definition setError (v : option jsstring) (st : LoginState) : LoginState :=
  {| isLogin := isLogin st; loginEmail := loginEmail st;
     loginPassword := loginPassword st; registerEmail := registerEmail st;
     registerPassword := registerPassword st; loading := loading st;
     error := v |}.

Definition setLoading (v : bool) (st : LoginState) : LoginState :=
  {| isLogin := isLogin st; loginEmail := loginEmail st;
     loginPassword := loginPassword st; registerEmail := registerEmail st;
     registerPassword := registerPassword st; loading := v;
     error := error st |}.

(** What the page has done: the form, the session store, the requests
    sent (endpoint, email, password) and whether [onSuccess] was called. *)
Record Page := {
  form : LoginState;
  storage : Auth.Storage;
  sent : list (jsstring * jsstring * jsstring);
  succeeded : bool;
}.

Section Handlers.
(** [api.login] and [api.signup], by email and password. *)
Variable api_login : jsstring → jsstring → outcome AuthResponse.
Variable api_signup : jsstring → jsstring → outcome AuthResponse.

Definition handleSubmit (p : Page) : Page :=
  let st := setError None (form p) in
  let st := setLoading true st in
  let endpoint := if isLogin st then lit "/auth/login" else lit "/auth/signup" in
  let mail :=
    if isLogin st then trim (loginEmail st) else trim (registerEmail st) in
  let password :=
    if isLogin st then loginPassword st else registerPassword st in
  let r := if isLogin st then api_login mail password
           else api_signup mail password in
  let sent := sent p ++ [(endpoint, mail, password)] in
  match r with
  | Resolved res =>
      {| form := setLoading false st;
         storage :=
           Auth.saveSession
             {| Auth.accessToken := access_token (session res);
                Auth.refreshToken := refresh_token (session res) |}
             (storage p);
         sent := sent;
         succeeded := true |}
  | _ =>
      let msg :=
        match r with
        | ThrewApiError e => message e
        | _ => lit "Something failed. Check backend logs / network tab."
        end in
      {| form := setLoading false (setError (Some msg) st);
         storage := storage p; sent := sent; succeeded := succeeded p |}
  end.

(** The guest button: [enableGuestMode(); onSuccess();] *)
Definition continueAsGuest (p : Page) : Page :=
  {| form := form p; storage := Auth.enableGuestMode (storage p);
     sent := sent p; succeeded := true |}.

End Handlers.

End Login.

(* ===================================================================== *)
(** ** Sample pages and backends *)
(* ===================================================================== *)

Definition forbidden : ApiError :=
  {| message := lit "Forbidden"; Api.status := 403; body := JUndefined |}.

Definition sample_state : Page.PageState :=
  {| Page.ui := blank_page; Page.projectsLoading := false;
     Page.projectsError := None; Page.projectsFetchInFlight := false;
     Page.chatLoading := false; Page.previewingProject := None;
     Page.reportPreviewLoading := false; Page.reportPreviewError := None;
     Page.reportPreviewText := []; Page.reportPreviewUrl := None |}.

Definition guest_state : Page.PageState :=
  Page.setUi
    {| guest := true; chattingProject := None; projects := [];
       messages := []; inputMessage := lit "hello"; chatError := None;
       reportLoading := false |}
    sample_state.

Definition sample_net : Page.Net := {| Page.backend := tt; Page.calls := [] |}.

Definition typing_page : UiState := setInputMessage (lit " hello ") blank_page.

Definition sample_listProjects (s : unit)
    : outcome (list ProjectOut) * unit := (Resolved [finished_project], s).

Definition refusing_deleteProject (_ : jsstring) (s : unit)
    : outcome unit * unit := (ThrewApiError forbidden, s).

Definition sample_history : list ChatMessageOut :=
  [ {| cm_id := lit "m1"; cm_role := lit "user"; cm_content := lit "Hi";
       cm_created_at := lit "2025-01-01" |};
    {| cm_id := lit "m2"; cm_role := lit "assistant";
       cm_content := lit "Hello"; cm_created_at := lit "2025-01-01" |} ].

Definition sample_listMessages (_ : jsstring) (s : unit)
    : outcome (list ChatMessageOut) * unit := (Resolved sample_history, s).

Definition sample_getReportUrl (_ : jsstring) (s : unit)
    : outcome jsstring * unit := (Resolved (lit "https://files/p1.docx"), s).

Definition refusing_getReportText (_ : jsstring) (s : unit)
    : outcome jsstring * unit := (ThrewApiError forbidden, s).

Definition refusing_regenerate (_ : jsstring) (s : unit)
    : outcome jsval * unit := (ThrewApiError forbidden, s).

Definition refusing_login (_ _ : jsstring) : outcome Login.AuthResponse :=
  ThrewApiError forbidden.

Definition login_page : Login.Page :=
  {| Login.form :=
       {| Login.isLogin := true; Login.loginEmail := lit " a@b.c ";
          Login.loginPassword := lit " pw "; Login.registerEmail := [];
          Login.registerPassword := []; Login.loading := false;
          Login.error := None |};
     Login.storage := {[ "access_token" := lit "old" ]};
     Login.sent := []; Login.succeeded := false |}.

Definition sample_document : Schema.document :=
  {| Schema.doc_id := lit "d1"; Schema.doc_project_id := lit "p1";
     Schema.doc_owner_id := lit "u1"; Schema.filename := lit "clause.pdf";
     Schema.storage_bucket := lit "project-files";
     Schema.storage_path := lit "p1/clause.pdf"; Schema.mime_type := None;
     Schema.byte_size := None; Schema.doc_created_at := 0 |}.

Definition sample_message : Schema.message :=
  {| Schema.msg_id := lit "m1"; Schema.msg_project_id := lit "p1";
     Schema.msg_owner_id := lit "u1"; Schema.role := lit "moderator";
     Schema.content := lit "Hi"; Schema.msg_created_at := 0 |}.


(* ===================================================================== *)
(** ** Requests with a body (lib/api.ts, continued) *)
(* ===================================================================== *)

Module Upload.

Section Bodies.
(** A file picked in a form. *)
Context {File : Type}.

Inductive FormValue :=
| FormText (s : jsstring)
| FormFile (f : File).

(** [init.body]: none, a string, or a [FormData] with its entries in the
    order they were appended. *)
Inductive Body :=
| NoBody
| TextBody (s : jsstring)
| FormDataBody (entries : list (jsstring * FormValue)).

Record Request := {
  url : jsstring;
  method : option jsstring;
  headers : list (jsstring * jsstring);
  body : Body;
}.

Definition isFormData (b : Body) : bool :=
  match b with FormDataBody _ => true | _ => false end.

(** What [apiFetch] makes of the response. *)
Definition respond (res : option Response) : outcome jsval :=
  match res with
  | None => ThrewOther
  | Some res =>
      if negb (res_ok res) then
        let body := parseErrorBody res in
        let detail := detailOf body in
        ThrewApiError {| message := errorMessage detail (res_status res);
                         Api.status := res_status res;
                         Api.body := body |}
      else if includes (lit "application/json") (contentType res)
      then match res_json res with
           | Some v => Resolved v
           | None => ThrewOther
           end
      else match res_text res with
           | Some t => Resolved (JStr t)
           | None => ThrewOther
           end
  end.

(** The headers [apiFetch] adds, by origin. *)
Definition contentTypePart (formData : bool) : list (jsstring * jsstring) :=
  if formData then [] else [(lit "Content-Type", lit "application/json")].

(** The header of the session token. *)
Definition authorizationPart (token : option jsstring)
    : list (jsstring * jsstring) :=
  match token with
  | Some t => if nonEmpty t then [(lit "Authorization", lit "Bearer " ++ t)]
              else []
  | None => []
  end.

Variable API_BASE : jsstring.
Variable fetch : Request → option Response.
Variable getAccessToken : option jsstring.
(** [JSON.stringify] *)
Variable stringify : jsval → jsstring.

(** [apiFetch(path, init)] for an [init] with a method and a body and no
    headers of its own, which is how every method of [api] calls it. *)
Definition apiFetch (path : jsstring) (method : option jsstring) (body : Body)
    : outcome jsval :=
  let headers := [] in
  let headers :=
    if negb (isFormData body)
    then headers ++ [(lit "Content-Type", lit "application/json")]
    else headers in
  let headers :=
    match getAccessToken with
    | Some token =>
        if nonEmpty token
        then headers ++ [(lit "Authorization", lit "Bearer " ++ token)]
        else headers
    | None => headers
    end in
  respond (fetch {| url := API_BASE ++ path; method := method;
                    headers := headers; body := body |}).

Record CreateProject := {
  title : jsstring;
  description : option jsstring;
  status : option jsstring;
  intake : option (gmap string jsval);
}.

(** The form [createProjectWithDocuments] builds. *)
Definition createForm (payload : CreateProject) (files : list File)
    : list (jsstring * FormValue) :=
  let form := [(lit "title", FormText (title payload))] in
  let form :=
    match description payload with
    | Some d => if nonEmpty d then form ++ [(lit "description", FormText d)]
                else form
    | None => form
    end in
  let form :=
    match status payload with
    | Some s => if nonEmpty s then form ++ [(lit "status_value", FormText s)]
                else form
    | None => form
    end in
  let form :=
    match intake payload with
    | Some i => form ++ [(lit "intake_json", FormText (stringify (JObj i)))]
    | None => form
    end in
  form ++ map (λ f, (lit "files", FormFile f)) files.

Definition createProjectWithDocuments (payload : CreateProject)
    (files : list File) : outcome jsval :=
  apiFetch (lit "/projects/with-documents") (Some (lit "POST"))
           (FormDataBody (createForm payload files)).

Definition uploadDocuments (projectId : jsstring) (files : list File)
    : outcome jsval :=
  apiFetch (lit "/projects/" ++ projectId ++ lit "/documents/upload")
           (Some (lit "POST"))
           (FormDataBody (map (λ f, (lit "files", FormFile f)) files)).

(** The entry of a form for a field that is sent only when it is not
    empty. *)
Definition optionalField (name : string) (v : option jsstring)
    : list (jsstring * FormValue) :=
  match v with
  | Some s => if nonEmpty s then [(lit name, FormText s)] else []
  | None => []
  end.

(** The files of a form, in the order they will be sent. *)
Definition filesOf (form : list (jsstring * FormValue)) : list File :=
  omap (λ e, match e.2 with FormFile f => Some f | FormText _ => None end) form.

End Bodies.

End Upload.

(* ===================================================================== *)
(** * Properties *)
(* ===================================================================== *)

(** ** Trimming *)

Lemma trimStart_nil (s : jsstring) :
  trimStart s = [] ↔ Forall (λ c, isWhiteSpace c = true) s.
Proof.
  induction s as [|c r IH]; simpl.
  - split; [constructor | reflexivity].
  - destruct (isWhiteSpace c) eqn:Hc.
    + rewrite IH. split; [by constructor | by inversion 1].
    + split; [discriminate | inversion 1; congruence].
Qed.

Lemma trimStart_blank_iff (s : jsstring) :
  Forall (λ c, isWhiteSpace c = true) (trimStart s)
  ↔ Forall (λ c, isWhiteSpace c = true) s.
Proof.
  induction s as [|c r IH]; simpl; [done|].
  destruct (isWhiteSpace c) eqn:Hc; [|done].
  rewrite IH. split; [by constructor | by inversion 1].
Qed.

Lemma Forall_rev_iff {A} (P : A → Prop) (l : list A) :
  Forall P (rev l) ↔ Forall P l.
Proof.
  split; intros H; [|by apply Forall_rev].
  rewrite <- (rev_involutive l). by apply Forall_rev.
Qed.

Lemma trim_nil (s : jsstring) :
  trim s = [] ↔ Forall (λ c, isWhiteSpace c = true) s.
Proof.
  unfold trim, trimEnd.
  rewrite <- trimStart_blank_iff, <- Forall_rev_iff, <- trimStart_nil.
  split; intros H.
  - apply (f_equal (@rev N)) in H. by rewrite rev_involutive in H.
  - by rewrite H.
Qed.

Lemma nonblank_not_blank (s : jsstring) :
  nonblank s ↔ ¬ Forall (λ c, isWhiteSpace c = true) s.
Proof.
  unfold nonblank. induction s as [|c r IH].
  - split; [intros (c & Hc & _); inversion Hc | intros H; destruct H; constructor].
  - split.
    + intros (d & Hd & Hw) HF. rewrite Forall_forall in HF.
      specialize (HF d Hd). congruence.
    + intros HF. destruct (isWhiteSpace c) eqn:Hc.
      * destruct IH as [_ IH]. destruct IH as (d & Hd & Hw).
        { intros Hr. apply HF. by constructor. }
        exists d. split; [by right | done].
      * exists c. split; [by left | done].
Qed.

Lemma nonEmpty_trim (s : jsstring) :
  nonEmpty (trim s) = true ↔ nonblank s.
Proof.
  rewrite nonblank_not_blank, <- trim_nil.
  destruct (trim s); simpl; split; done.
Qed.

Lemma nonEmpty_trim_false (s : jsstring) :
  nonEmpty (trim s) = false ↔ ¬ nonblank s.
Proof.
  rewrite <- nonEmpty_trim. by destruct (nonEmpty (trim s)).
Qed.

(** ** The missing-fields computation *)

Lemma get_JStr (i : gmap string jsval) (f : string) (s : jsstring) :
  get i f = JStr s ↔ i !! f = Some (JStr s).
Proof.
  unfold get. destruct (i !! f) as [v|]; simpl; split; congruence.
Qed.


Lemma textMissing_JStr (s : jsstring) :
  textMissing (JStr s) = negb (nonEmpty (trim s)).
Proof.
  unfold textMissing, or_else. simpl. by destruct s.
Qed.


Lemma filter_nil_length {A} (P : A → Prop) `{!∀ x, Decision (P x)} (l : list A) :
  (length (filter P l) =? 0)%nat = false ↔ ∃ x, x ∈ l ∧ P x.
Proof.
  rewrite Nat.eqb_neq. split.
  - intros Hne. destruct (filter P l) as [|x r] eqn:E; [done|].
    exists x. apply and_comm, (list_elem_of_filter P). rewrite E. by left.
  - intros (x & Hx & HP) E. apply length_zero_iff_nil in E.
    assert (x ∈ filter P l) as Hin by by apply list_elem_of_filter.
    rewrite E in Hin. inversion Hin.
Qed.

(** The check of the proposed seats passes exactly when the value is an
    array with an element whose text is non-empty after trimming. *)
Lemma seatsMissing_false (v : jsval) :
  seatsMissing v = false
  ↔ ∃ l x, v = JArr l ∧ x ∈ l ∧ nonblank (ToString x).
Proof.
  destruct v;
    try (simpl; split; [discriminate | by intros (? & ? & ? & _)]).
  simpl. rewrite filter_nil_length. split.
  - intros (x & Hx & HP). exists l, x. by rewrite <- nonEmpty_trim.
  - intros (l' & x & [= <-] & Hx & Hn). exists x. split; [done|].
    by apply nonEmpty_trim.
Qed.

(** The result lists the required fields whose check fires, in the order
    of [required_fields]. *)
Lemma computeMissing_filter (intake : option (gmap string jsval)) :
  computeMissingFromIntake intake
  = filter (λ f, field_missing (default ∅ intake) f = true) required_fields.
Proof.
  unfold computeMissingFromIntake, required_fields, push.
  set (i := default ∅ intake).
  rewrite !filter_cons, filter_nil. unfold field_missing. simpl.
  destruct (textMissing (get i "current_seat")),
    (seatsMissing (get i "proposed_seats")),
    (textMissing (get i "arbitration_agreement_text")),
    (textMissing (get i "institution_rules")),
    (textMissing (get i "governing_law")); reflexivity.
Qed.

Lemma elem_of_computeMissing (intake : option (gmap string jsval)) (f : string) :
  f ∈ computeMissingFromIntake intake
  ↔ f ∈ required_fields ∧ field_missing (default ∅ intake) f = true.
Proof.
  rewrite computeMissing_filter, list_elem_of_filter. tauto.
Qed.




Lemma filter_ext_elem {A} (P Q : A → Prop)
    `{!∀ x, Decision (P x)} `{!∀ x, Decision (Q x)} (l : list A) :
  (∀ x, x ∈ l → P x ↔ Q x) → filter P l = filter Q l.
Proof.
  induction l as [|a l IH]; [done|]. intros Hl.
  rewrite !filter_cons, IH by (intros x Hx; apply Hl; by right).
  destruct (decide (P a)) as [Hp|Hp], (decide (Q a)) as [Hq|Hq]; try done;
    apply Hl in Hp || apply Hl in Hq; by try left.
Qed.









(** C2. The result of [computeMissingFromIntake] lists the missing fields
    in the order of the data model: it is what remains of
    [required_fields] when the fields that are not missing are struck
    out, so it is a sublist of [required_fields] without repetition, and
    two intakes with the same set of missing fields get the same list. *)
Theorem computeMissing_ordered (intake : option (gmap string jsval)) :
  computeMissingFromIntake intake
    = filter (λ f, f ∈ computeMissingFromIntake intake) required_fields
  ∧ computeMissingFromIntake intake `sublist_of` required_fields
  ∧ NoDup (computeMissingFromIntake intake)
  ∧ ∀ intake',
      (∀ f, f ∈ computeMissingFromIntake intake
            ↔ f ∈ computeMissingFromIntake intake') →
      computeMissingFromIntake intake = computeMissingFromIntake intake'.
Proof.
  assert (∀ a b : option (gmap string jsval),
            (∀ f, f ∈ computeMissingFromIntake a ↔ f ∈ computeMissingFromIntake b) →
            computeMissingFromIntake a
            = filter (λ f, f ∈ computeMissingFromIntake b) required_fields) as Hfilter.
  { intros a b Hab. rewrite (computeMissing_filter a) at 1.
    apply filter_ext_elem. intros f Hf.
    rewrite <- Hab, elem_of_computeMissing. tauto. }
  split; [|split; [|split]].
  - by apply Hfilter.
  - rewrite computeMissing_filter. apply sublist_filter.
  - rewrite computeMissing_filter. apply NoDup_filter.
    apply (bool_decide_unpack _). vm_compute. exact I.
  - intros intake' Hsame.
    rewrite (Hfilter intake intake' Hsame). symmetry. by apply Hfilter.
Qed.

Lemma computeMissing_ordered_witness :
  computeMissingFromIntake (Some (delete "governing_law" complete_intake))
  = computeMissingFromIntake
      (Some (<["governing_law" := JArr []]> complete_intake)).
Proof.
  apply (computeMissing_ordered
           (Some (delete "governing_law" complete_intake))).
  intros f.
  replace (computeMissingFromIntake
             (Some (<["governing_law" := JArr []]> complete_intake)))
    with ["governing_law"] by (vm_compute; reflexivity).
  replace (computeMissingFromIntake
             (Some (delete "governing_law" complete_intake)))
    with ["governing_law"] by (vm_compute; reflexivity).
  reflexivity.
Defined.



(** ** Trimming, continued: what [trim] keeps *)

Lemma trimStart_decompose (s : jsstring) :
  ∃ pre, s = pre ++ trimStart s ∧ Forall (λ c, isWhiteSpace c = true) pre.
Proof.
  induction s as [|c r (pre & E & Hpre)]; simpl.
  - by exists [].
  - destruct (isWhiteSpace c) eqn:Hc.
    + exists (c :: pre). split; [simpl; congruence | by constructor].
    + by exists [].
Qed.

Lemma trimEnd_decompose (s : jsstring) :
  ∃ post, s = trimEnd s ++ post ∧ Forall (λ c, isWhiteSpace c = true) post.
Proof.
  unfold trimEnd. destruct (trimStart_decompose (rev s)) as (pre & E & Hpre).
  exists (rev pre). split; [|by apply Forall_rev].
  rewrite <- rev_app_distr, <- E. by rewrite rev_involutive.
Qed.

Lemma trimStart_head (s : jsstring) (c : N) (r : jsstring) :
  trimStart s = c :: r → isWhiteSpace c = false.
Proof.
  induction s as [|d s IH]; simpl; [done|].
  destruct (isWhiteSpace d) eqn:Hd; [done|]. by intros [= <- _].
Qed.

Lemma trimStart_fixed (s : jsstring) :
  (∀ c r, s = c :: r → isWhiteSpace c = false) → trimStart s = s.
Proof.
  destruct s as [|c r]; simpl; [done|]. intros H. by rewrite (H c r).
Qed.

Lemma trimStart_idem (s : jsstring) : trimStart (trimStart s) = trimStart s.
Proof.
  apply trimStart_fixed. intros c r. apply trimStart_head.
Qed.

Lemma trimEnd_idem (s : jsstring) : trimEnd (trimEnd s) = trimEnd s.
Proof.
  unfold trimEnd. by rewrite rev_involutive, trimStart_idem.
Qed.

Lemma trim_head (s : jsstring) (c : N) (r : jsstring) :
  trim s = c :: r → isWhiteSpace c = false.
Proof.
  unfold trim. intros E.
  destruct (trimEnd_decompose (trimStart s)) as (post & Es & _).
  rewrite E in Es. simpl in Es. by apply trimStart_head in Es.
Qed.

Lemma trim_idem (s : jsstring) : trim (trim s) = trim s.
Proof.
  unfold trim at 1.
  rewrite (trimStart_fixed (trim s)) by apply trim_head.
  unfold trim. apply trimEnd_idem.
Qed.

(** [trim] removes white space at both ends and nothing else. *)
Lemma trim_decompose (s : jsstring) :
  ∃ pre post, s = pre ++ trim s ++ post
              ∧ Forall (λ c, isWhiteSpace c = true) pre
              ∧ Forall (λ c, isWhiteSpace c = true) post.
Proof.
  destruct (trimStart_decompose s) as (pre & E1 & Hpre).
  destruct (trimEnd_decompose (trimStart s)) as (post & E2 & Hpost).
  exists pre, post. unfold trim. by rewrite <- E2.
Qed.

(** ** Splitting at separators *)

Lemma split_nonempty (raw : jsstring) : split raw ≠ [].
Proof.
  destruct raw as [|c r]; simpl; [done|].
  destruct (isSeparator c); [done|]. by destruct (split r).
Qed.

Lemma split_Segments (raw : jsstring) : Segments raw (split raw).
Proof.
  induction raw as [|c r IH]; simpl.
  - by constructor.
  - destruct (isSeparator c) eqn:Hc.
    + by apply (Segments_more [] c r).
    + inversion IH as [s Hs E1 E2 | s d raw' segs Hs Hd Hraw E1 E2].
      * constructor. by constructor.
      * apply (Segments_more (c :: s) d raw'); [by constructor | done..].
Qed.

Lemma split_no_separator (s : jsstring) :
  Forall (λ c, isSeparator c = false) s → split s = [s].
Proof.
  induction 1 as [|c s Hc _ IH]; simpl; [done|]. by rewrite Hc, IH.
Qed.

Lemma split_at_separator (s : jsstring) (c : N) (raw : jsstring) :
  Forall (λ c, isSeparator c = false) s → isSeparator c = true →
  split (s ++ c :: raw) = s :: split raw.
Proof.
  intros Hs Hc. induction Hs as [|d s Hd _ IH]; simpl.
  - by rewrite Hc.
  - by rewrite Hd, IH.
Qed.





(** ** The regenerate request of the client *)

Lemma accepted_shape_has_accepted (o : gmap string jsval) :
  accepted_shape (JObj o) → is_Some (o !! "accepted").
Proof. intros (o' & b & [= <-] & Hb & _). by rewrite Hb. Qed.

(** C5, counterexample. When the server refuses, [regenerateReport] does
    not return a record at all: it throws an [ApiError] whose message is
    the reason. When the server accepts with the declared body
    [{ok: true}], the value returned has no [accepted] field. *)
Lemma regenerateReport_not_accepted_shape :
  Api.regenerateReport [] refusing_fetch None (lit "p1")
    = ThrewApiError {| message := lit "still missing fields"; status := 400;
                       body := JObj {[ "detail" := JStr (lit "still missing fields") ]} |}
  ∧ ¬ returns_accepted_shape (Api.regenerateReport [] refusing_fetch None (lit "p1"))
  ∧ Api.regenerateReport [] accepting_fetch None (lit "p1")
    = Resolved (JObj {[ "ok" := JBool true ]})
  ∧ ¬ returns_accepted_shape (Api.regenerateReport [] accepting_fetch None (lit "p1")).
Proof.
  assert (Api.regenerateReport [] refusing_fetch None (lit "p1")
          = ThrewApiError {| message := lit "still missing fields"; status := 400;
                             body := JObj {[ "detail" := JStr (lit "still missing fields") ]} |})
    as E1 by reflexivity.
  assert (Api.regenerateReport [] accepting_fetch None (lit "p1")
          = Resolved (JObj {[ "ok" := JBool true ]})) as E2 by reflexivity.
  rewrite E1, E2. repeat split.
  - intros (v & [=] & _).
  - intros (v & [= <-] & Hs). apply accepted_shape_has_accepted in Hs.
    rewrite lookup_singleton_ne in Hs by done. by destruct Hs.
Qed.

(** C5, as the client has it. [regenerateReport] sends one POST request
    to [/projects/<id>/report/regenerate]. It returns a value only for a
    response with a status from 200 to 299, and the value is the body of
    that response: the record [{ok: b}] when the server sends that. For
    any other status it throws an [ApiError] that carries the status and,
    as its message, the server's [detail] string when there is one. *)
Theorem regenerateReport_outcome
    (API_BASE : jsstring) (fetch : Request → option Response)
    (token : option jsstring) (projectId : jsstring) :
  ∃ req,
    req_url req = API_BASE ++ lit "/projects/" ++ projectId
                           ++ lit "/report/regenerate"
    ∧ req_method req = lit "POST"
    ∧ (∀ v, Api.regenerateReport API_BASE fetch token projectId = Resolved v →
         ∃ res, fetch req = Some res
                ∧ (200 ≤ res_status res ≤ 299)%Z
                ∧ (res_json res = Some v
                   ∨ ∃ t, res_text res = Some t ∧ v = JStr t))
    ∧ (∀ res, fetch req = Some res →
         ¬ (200 ≤ res_status res ≤ 299)%Z →
         ∃ e, Api.regenerateReport API_BASE fetch token projectId = ThrewApiError e
              ∧ Api.status e = res_status res
              ∧ ∀ d, detailOf (parseErrorBody res) = JStr d → message e = d)
    ∧ (∀ res b, fetch req = Some res →
         (200 ≤ res_status res ≤ 299)%Z →
         res_content_type res = Some (lit "application/json") →
         res_json res = Some (JObj {[ "ok" := JBool b ]}) →
         Api.regenerateReport API_BASE fetch token projectId
           = Resolved (JObj {[ "ok" := JBool b ]})
         ∧ ok_shape (JObj {[ "ok" := JBool b ]})).
Proof.
  unfold Api.regenerateReport, apiFetch.
  match goal with |- context [fetch ?r] => exists r end.
  split; [reflexivity|]. split; [reflexivity|].
  match goal with |- context [fetch ?r] => generalize r end. intros req.
  assert (∀ res, res_ok res = true ↔ (200 ≤ res_status res ≤ 299)%Z) as Hok.
  { intros res. unfold res_ok. rewrite andb_true_iff, !Z.leb_le. tauto. }
  split; [|split].
  - intros v. destruct (fetch req) as [res|]; [|done].
    destruct (res_ok res) eqn:Eok; simpl; [|done].
    apply Hok in Eok. intros Hv. exists res. split; [done|]. split; [done|].
    destruct (includes _ _).
    + destruct (res_json res); [|done]. left. congruence.
    + destruct (res_text res) as [t|]; [|done]. right. exists t.
      split; congruence.
  - intros res -> Hno.
    destruct (res_ok res) eqn:Eok; [by apply Hok in Eok|]. simpl.
    eexists. split; [reflexivity|]. split; [reflexivity|]. simpl.
    by intros d ->.
  - intros res b -> Hyes Hct Hjson. apply Hok in Hyes. rewrite Hyes. simpl.
    unfold contentType. rewrite Hct, Hjson. split; [reflexivity|].
    by exists b.
Qed.

Lemma regenerateReport_outcome_witness :
  ∃ e, Api.regenerateReport [] refusing_fetch None (lit "p1") = ThrewApiError e
       ∧ Api.status e = 400%Z
       ∧ message e = lit "still missing fields".
Proof.
  destruct (regenerateReport_outcome [] refusing_fetch None (lit "p1"))
    as (req & _ & _ & _ & Hrefuse & _).
  destruct (Hrefuse {| res_status := 400;
                       res_content_type := Some (lit "application/json");
                       res_json := Some (JObj {[ "detail" := JStr (lit "still missing fields") ]});
                       res_text := None |})
    as (e & He & Hs & Hm); [reflexivity | simpl; lia |].
  exists e. split; [exact He|]. split; [exact Hs|].
  apply Hm. reflexivity.
Defined.

(** ** The chat handlers *)

Section HandlerFacts.
Context {Server : Type}.
Variable api_sendMessage :
  jsstring → jsstring → Server → outcome SendMessageOut * Server.
Variable api_getProject : jsstring → Server → outcome ProjectOut * Server.

(** C4, as the client has it. A chat turn whose text is empty after
    trimming is dropped: nothing is sent, so nothing is persisted and
    the project keeps its status and intake on the server, and the page
    state stays as it is. No error is reported for the empty text; the
    only error such a turn can show is the login notice of guest mode. *)
Theorem handleSendMessage_blank (st : UiState) (w : World) :
  ¬ nonblank (inputMessage st) →
  handleSendMessage api_sendMessage api_getProject st w
  = (if guest st
     then setChatError (Some (lit "Login is required to chat.")) st
     else st,
     w).
Proof.
  intros Hb. apply nonEmpty_trim_false in Hb. unfold handleSendMessage.
  destruct (guest st); [done|].
  destruct (chattingProject st); [|done]. by rewrite Hb.
Qed.

Lemma getProject_events (projectId : jsstring) (w : World (Server:=Server)) :
  events (getProject api_getProject projectId w).2
  = events w ++ [GotProject projectId (getProject api_getProject projectId w).1].
Proof.
  unfold getProject. by destruct (api_getProject projectId (server w)).
Qed.

Lemma pollCount_app (a b : list Event) :
  pollCount (a ++ b) = pollCount a + pollCount b.
Proof. unfold pollCount. by rewrite filter_app, length_app. Qed.

Lemma pollTrace_stop (n : nat) (projectId : jsstring) (p : ProjectOut) :
  project_status p ≠ lit "working" →
  pollTrace (S n) [GotProject projectId (Resolved p)].
Proof.
  intros Hp. unfold pollTrace.
  change (pollCount [GotProject projectId (Resolved p)]) with 1.
  simpl length. split; [lia|]. split; [lia|]. split.
  - intros pre e post E _.
    destruct pre as [|? [|]]; by simplify_eq/=.
  - intros _. exists [], (GotProject projectId (Resolved p)).
    split; [done|]. by exists projectId, p.
Qed.

Lemma pollTrace_continue (n : nat) (projectId : jsstring)
    (r : outcome ProjectOut) (evs : list Event) :
  (∀ p, r = Resolved p → project_status p = lit "working") →
  pollTrace n evs →
  pollTrace (S n) (GotProject projectId r :: Slept 900 :: evs).
Proof.
  intros Hr (Hc & Hl & Hstop & Hearly). unfold pollTrace.
  change (GotProject projectId r :: Slept 900 :: evs)
    with ([GotProject projectId r; Slept 900] ++ evs).
  rewrite pollCount_app, length_app.
  change (pollCount [GotProject projectId r; Slept 900]) with 1.
  simpl length. split; [lia|]. split; [lia|]. split.
  - intros pre e post E Hs.
    destruct pre as [|e1 [|e2 pre]]; simplify_eq/=.
    + destruct Hs as (? & p & [= _ ->] & Hp). by rewrite (Hr p) in Hp.
    + by destruct Hs as (? & ? & ? & _).
    + by apply (Hstop pre e post).
  - intros Hlt. destruct Hearly as (pre & e & -> & He); [lia|].
    exists (GotProject projectId r :: Slept 900 :: pre), e. by split.
Qed.

Lemma pollLoop_trace (n : nat) (projectId : jsstring)
    (st : UiState) (w : World) :
  ∃ evs, events (pollLoop api_getProject n projectId st w).2 = events w ++ evs
         ∧ pollTrace n evs.
Proof.
  revert st w. induction n as [|n IH]; intros st w; simpl.
  - exists []. split; [by rewrite app_nil_r|].
    unfold pollTrace. change (pollCount []) with 0. simpl length.
    split; [lia|]. split; [lia|]. split.
    + intros pre e post E. by destruct pre.
    + lia.
  - pose proof (getProject_events projectId w) as Hev.
    destruct (getProject api_getProject projectId w) as [r w1].
    simpl in Hev.
    assert (∀ st', (∀ p, r = Resolved p → project_status p = lit "working") →
              ∃ evs,
                events (pollLoop api_getProject n projectId st' (sleep 900 w1)).2
                = events w ++ evs ∧ pollTrace (S n) evs) as Hgo.
    { intros st' Hr. destruct (IH st' (sleep 900 w1)) as (evs & E & Ht).
      exists (GotProject projectId r :: Slept 900 :: evs).
      split; [|by apply pollTrace_continue].
      rewrite E. simpl. rewrite Hev, <- !app_assoc. reflexivity. }
    destruct r as [p| |]; [|by apply Hgo..].
    destruct (decide (project_status p ≠ lit "working")) as [Hp|Hp].
    + exists [GotProject projectId (Resolved p)].
      split; [done | by apply pollTrace_stop].
    + apply Hgo. intros p' [= <-].
      by destruct (decide (project_status p = lit "working")).
Qed.

(** C10. [pollProjectUntilNotWorking] is a total function: it returns
    after at most 25 polls (and at most 25 pauses). A successful poll
    that sees a status other than ['working'] is the last thing it does,
    and it stops before the 25th poll only for that reason. *)
Theorem pollProjectUntilNotWorking_terminates (projectId : jsstring)
    (st : UiState) (w : World) :
  ∃ st' w' evs,
    pollProjectUntilNotWorking api_getProject projectId st w = (st', w')
    ∧ events w' = events w ++ evs
    ∧ pollCount evs ≤ 25
    ∧ length evs ≤ 50
    ∧ (∀ pre e post, evs = pre ++ e :: post → sawNotWorking e → post = [])
    ∧ (pollCount evs < 25 → ∃ pre e, evs = pre ++ [e] ∧ sawNotWorking e).
Proof.
  unfold pollProjectUntilNotWorking.
  destruct (pollLoop_trace 25 projectId st w) as (evs & E & Hc & Hl & Hs & He).
  destruct (pollLoop api_getProject 25 projectId st w) as [st' w'].
  by exists st', w', evs.
Qed.
End HandlerFacts.

(** C4, counterexample. A logged-in user sends three spaces: the handler
    returns with the page and the world as they were, and no error is
    shown. *)
Lemma handleSendMessage_blank_no_error :
  handleSendMessage quiet_sendMessage finished_getProject blank_page quiet_world
    = (blank_page, quiet_world)
  ∧ chatError
      (handleSendMessage quiet_sendMessage finished_getProject
         blank_page quiet_world).1 = None.
Proof. split; reflexivity. Qed.

Lemma handleSendMessage_blank_witness :
  handleSendMessage quiet_sendMessage finished_getProject blank_page quiet_world
  = (blank_page, quiet_world).
Proof.
  apply (handleSendMessage_blank quiet_sendMessage finished_getProject
           blank_page quiet_world).
  apply nonEmpty_trim_false. vm_compute. reflexivity.
Defined.

Lemma pollProjectUntilNotWorking_terminates_witness :
  ∃ pre e,
    [GotProject (lit "p1") (Resolved finished_project)] = pre ++ [e]
    ∧ sawNotWorking e.
Proof.
  destruct (pollProjectUntilNotWorking_terminates finished_getProject
              (lit "p1") blank_page quiet_world)
    as (st' & w' & evs & E & Ev & _ & _ & _ & Hearly).
  assert (pollProjectUntilNotWorking finished_getProject (lit "p1")
            blank_page quiet_world
          = (blank_page,
             {| server := tt;
                events := [GotProject (lit "p1") (Resolved finished_project)] |}))
    as Erun by (vm_compute; reflexivity).
  rewrite Erun in E. injection E as <- <-. simpl in Ev. subst evs.
  apply Hearly. vm_compute. lia.
Defined.

(** ** The status column *)

Lemma status_check_valid (r : Db.project) :
  Db.status_check (Db.status r) = true ↔ Db.status_valid r.
Proof.
  unfold Db.status_check, Db.status_valid.
  rewrite bool_decide_eq_true, !elem_of_cons, elem_of_nil. tauto.
Qed.

Lemma exec_status_valid (s : Db.statement) (t t' : Db.table) :
  map_Forall (λ _ r, Db.status_valid r) t →
  Db.exec s t = inl t' →
  map_Forall (λ _ r, Db.status_valid r) t'.
Proof.
  intros Ht. destruct s as [r | i o ti st ik now | k set now | k]; simpl.
  - unfold Db.insert. destruct (t !! Db.id r); [done|].
    destruct (Db.status_check (Db.status r)) eqn:Hc; [|done].
    intros [= <-]. apply map_Forall_insert_2; [|done].
    by apply status_check_valid.
  - unfold Db.insert_new, Db.insert. simpl. destruct (t !! i); [done|].
    match goal with |- context [Db.status_check ?s] =>
      destruct (Db.status_check s) eqn:Hc end; [|done].
    intros [= <-]. apply map_Forall_insert_2; [|done].
    by apply status_check_valid.
  - unfold Db.update. destruct (t !! k) as [old|]; [|by intros [= <-]].
    match goal with |- context [Db.status_check ?s] =>
      destruct (Db.status_check s) eqn:Hc end; [|done].
    intros [= <-]. apply map_Forall_insert_2; [|done].
    by apply status_check_valid.
  - intros [= <-]. by apply map_Forall_delete.
Qed.

Lemma run_status_valid (ss : list Db.statement) (t : Db.table) :
  map_Forall (λ _ r, Db.status_valid r) t →
  map_Forall (λ _ r, Db.status_valid r) (Db.run ss t).
Proof.
  revert t. induction ss as [|s ss IH]; intros t Ht; simpl; [done|].
  apply IH. unfold Db.run1. destruct (Db.exec s t) as [t'|] eqn:E; [|done].
  by eapply exec_status_valid.
Qed.

(** C3. A project is created in status ['working']: the create request
    of [handleCreate] carries that status, and an insert that carries it,
    or leaves the status out, stores it. Whatever statements run on the
    table, every row has one of the statuses ['working'], ['complete'],
    ['intervention']: an insert or update with another status is refused
    by the check constraint and leaves the table as it was. *)
Theorem status_always_valid :
  (∀ g t cs ps ad payload,
     handleCreate g t cs ps ad = Some payload →
     payload_status payload = Some (lit "working"))
  ∧ (∀ i o ti st ik now t t',
       st = None ∨ st = Some (lit "working") →
       Db.insert_new i o ti st ik now t = inl t' →
       ∃ r, t' !! i = Some r ∧ Db.status r = lit "working"
            ∧ Db.report_error r = None ∧ Db.report_generated_at r = None)
  ∧ (∀ ss, map_Forall (λ _ r, Db.status_valid r) (Db.run ss ∅))
  ∧ (∀ r t, ¬ Db.status_valid r → t !! Db.id r = None →
       Db.exec (Db.Insert r) t = inr Db.CheckViolation
       ∧ Db.run1 t (Db.Insert r) = t)
  ∧ (∀ k set now t old, t !! k = Some old → ¬ Db.status_valid (set old) →
       Db.exec (Db.Update k set now) t = inr Db.CheckViolation
       ∧ Db.run1 t (Db.Update k set now) = t).
Proof.
  split; [|split; [|split; [|split]]].
  - intros g t cs ps ad payload. unfold handleCreate.
    destruct g; [done|]. destruct (negb _); [done|]. by intros [= <-].
  - intros i o ti st ik now t t' Hst. unfold Db.insert_new, Db.insert. simpl.
    destruct (t !! i); [done|].
    assert (default (lit "working") st = lit "working") as ->
      by (by destruct Hst as [-> | ->]).
    change (Db.status_check (lit "working")) with true. cbv iota.
    intros [= <-]. eexists. by rewrite lookup_insert_eq.
  - intros ss. apply run_status_valid, map_Forall_empty.
  - intros r t Hr Hnone. unfold Db.run1. simpl. unfold Db.insert.
    rewrite Hnone. destruct (Db.status_check (Db.status r)) eqn:Hc; [|done].
    by apply status_check_valid in Hc.
  - intros k set now t old Hold Hset. unfold Db.run1. simpl. unfold Db.update.
    rewrite Hold. simpl.
    destruct (Db.status_check (Db.status (set old))) eqn:Hc; [|done].
    apply (status_check_valid (set old)) in Hc. done.
Qed.

Lemma status_always_valid_witness :
  payload_status
    <$> handleCreate false (lit "Seat change") (lit "Paris") (lit "Geneva; Vienna") []
  = Some (Some (lit "working"))
  ∧ ∃ t' r,
      Db.insert_new (lit "p1") (lit "u1") (lit "Seat change") None None 0 ∅
      = inl t'
      ∧ t' !! lit "p1" = Some r ∧ Db.status r = lit "working".
Proof.
  destruct status_always_valid as (Hcreate & Hinsert & _).
  split.
  - destruct (handleCreate false (lit "Seat change") (lit "Paris")
                (lit "Geneva; Vienna") []) as [payload|] eqn:E.
    + simpl. f_equal. by apply (Hcreate _ _ _ _ _ _ E).
    + vm_compute in E. discriminate.
  - destruct (Db.insert_new (lit "p1") (lit "u1") (lit "Seat change")
                None None 0 ∅) as [t'|e] eqn:E.
    + destruct (Hinsert _ _ _ _ _ _ _ t' (or_introl eq_refl) E)
        as (r & Hr & Hs & _).
      by exists t', r.
    + vm_compute in E. discriminate.
Defined.

(** ** The report columns *)

Import Orchestrator.





(** ** One generation per project *)







Lemma filter_snoc_key (projectId : jsstring) (a : nat)
    (l : list (jsstring * nat)) :
  snd <$> filter (λ g, g.1 = projectId) (l ++ [(projectId, a)])
  = (snd <$> filter (λ g, g.1 = projectId) l) ++ [a].
Proof.
  rewrite filter_app, fmap_app. f_equal.
  rewrite filter_cons, filter_nil. simpl. by destruct (decide _).
Qed.

Lemma regenerate_fresh (projectId : jsstring) (o : Orch) (p : Project) :
  projects o !! projectId = Some p →
  missing_fields (intake p) = [] →
  active projectId o = [] →
  let a := length (started o) in
  let o1 := {| projects := <[projectId := set_status working p]> (projects o);
               running := running o ++ [(projectId, a)];
               started := started o ++ [(projectId, a)] |} in
  regenerate projectId o = (Started a, o1)
  ∧ regenerate projectId o1 = (AlreadyRunning a, o1)
  ∧ active projectId o1 = [a]
  ∧ executions projectId o1 = executions projectId o ++ [a].
Proof.
  intros Hp Hm Ea a o1.
  assert (active projectId o1 = [a]) as Ea1.
  { unfold active, o1. simpl. rewrite filter_snoc_key.
    fold (active projectId o). by rewrite Ea. }
  split; [|split; [|split]].
  - unfold regenerate. by rewrite Hp, Ea, Hm.
  - unfold regenerate. rewrite Ea1. unfold o1 at 1. simpl.
    by rewrite lookup_insert_eq.
  - done.
  - unfold executions, o1. simpl. by rewrite filter_snoc_key.
Qed.




(** ** The Generate Report button against the orchestrator *)

Section PollFacts.
Context {Server : Type}.
Variable api_getProject : jsstring → Server → outcome ProjectOut * Server.
Hypothesis getProject_reads : ∀ k s, (api_getProject k s).2 = s.

(** A poll loop over a read-only endpoint leaves the backend as it is,
    and keeps the project the chat is about. *)
Lemma pollLoop_reads (n : nat) (projectId : jsstring) (st : UiState)
    (w : World) :
  let r := pollLoop api_getProject n projectId st w in
  server r.2 = server w
  ∧ guest r.1 = guest st
  ∧ chatError r.1 = chatError st
  ∧ project_id <$> chattingProject r.1 = project_id <$> chattingProject st.
Proof.
  revert st w. induction n as [|n IH]; intros st w; simpl; [done|].
  unfold getProject. pose proof (getProject_reads projectId (server w)) as Hs.
  destruct (api_getProject projectId (server w)) as [r s]. simpl in Hs.
  subst s.
  destruct r as [p|e|]; [|exact (IH _ _)..].
  match goal with |- context [setProjects ?a (setChattingProject ?b st)] =>
    set (st1 := setProjects a (setChattingProject b st)) end.
  assert (guest st1 = guest st ∧ chatError st1 = chatError st
          ∧ project_id <$> chattingProject st1
            = project_id <$> chattingProject st) as (Hg & He & Hc).
  { unfold st1. simpl. repeat split.
    destruct (chattingProject st) as [cur|]; [|done]. simpl.
    destruct (decide (project_id cur = project_id p)); simpl; congruence. }
  destruct (decide (project_status p ≠ lit "working")); simpl.
  - done.
  - destruct (IH st1 (sleep 900
                {| server := server w;
                   events := events w ++ [GotProject projectId (Resolved p)] |}))
      as (H1 & H2 & H3 & H4).
    simpl in H1. rewrite H1, H2, H3, H4. done.
Qed.
End PollFacts.

(** The button pressed twice while the first generation is in flight:
    the handler sends a regenerate request each time, the orchestrator
    starts one generation, and the page shows no error. *)
Lemma handleGenerateReport_twice (o : Orch) (st : UiState) (cp : ProjectOut)
    (p : Project) :
  guest st = false →
  chattingProject st = Some cp →
  projects o !! project_id cp = Some p →
  missing_fields (intake p) = [] →
  active (project_id cp) o = [] →
  let press := handleGenerateReport endpoint_getProject endpoint_regenerate in
  let first := press st {| server := o; events := [] |} in
  let second := press first.1 first.2 in
  executions (project_id cp) (server second.2)
    = executions (project_id cp) o ++ [length (started o)]
  ∧ active (project_id cp) (server second.2) = [length (started o)]
  ∧ chatError second.1 = None
  ∧ reportLoading second.1 = false.
Proof.
  intros Hg Hcp Hp Hm Ea press first second.
  destruct (regenerate_fresh _ o p Hp Hm Ea) as (E1 & E2 & Ea1 & Ex).
  set (a := length (started o)) in *.
  match type of E1 with _ = (_, ?x) => set (o1 := x) in * end.
  assert (∀ k s, (endpoint_getProject k s).2 = s) as Hread.
  { intros k s. unfold endpoint_getProject. by destruct (projects s !! k). }
  assert (server first.2 = o1 ∧ guest first.1 = false
          ∧ project_id <$> chattingProject first.1 = Some (project_id cp))
    as (Hs1 & Hg1 & Hc1).
  { unfold first, press, handleGenerateReport. rewrite Hg, Hcp.
    unfold regenerateReport, endpoint_regenerate. simpl. rewrite E1.
    unfold pollProjectUntilNotWorking.
    match goal with |- context [pollLoop _ 25 ?k ?s ?w] =>
      pose proof (pollLoop_reads endpoint_getProject Hread 25 k s w)
        as (H1 & H2 & H3 & H4);
      destruct (pollLoop endpoint_getProject 25 k s w) as [st' w'] end.
    simpl in *. rewrite H1, H2, H4, Hg, Hcp. done. }
  destruct (chattingProject first.1) as [cp1|] eqn:Hcp1; [|done].
  injection Hc1 as Hid.
  unfold second, press, handleGenerateReport. rewrite Hg1, Hcp1, Hid.
  unfold regenerateReport, endpoint_regenerate. simpl. rewrite Hs1, E2.
  unfold pollProjectUntilNotWorking.
  match goal with |- context [pollLoop _ 25 ?k ?s ?w] =>
    pose proof (pollLoop_reads endpoint_getProject Hread 25 k s w)
      as (H1 & H2 & H3 & H4);
    destruct (pollLoop endpoint_getProject 25 k s w) as [st' w'] end.
  simpl in *. rewrite H1, H3. done.
Qed.

(* ===================================================================== *)
(** * Further properties of the code *)
(* ===================================================================== *)

#[local] Arguments lit : simpl never.

(** ** The session store *)

Lemma saveSession_guest_off (session : Auth.AuthSession) (ls : Auth.Storage) :
  Auth.isGuestMode (Auth.saveSession session ls) = false.
Proof.
  unfold Auth.isGuestMode, Auth.saveSession. by rewrite lookup_delete_eq.
Qed.

(** X1. Saving a session stores the access token, stores the refresh
    token when there is a non-empty one and removes a stale one
    otherwise, ends guest mode, and touches no other key. *)
Theorem saveSession_stores (session : Auth.AuthSession) (ls : Auth.Storage) :
  Auth.getAccessToken (Auth.saveSession session ls)
    = Some (Auth.accessToken session)
  ∧ Auth.getRefreshToken (Auth.saveSession session ls)
    = match Auth.refreshToken session with
      | Some r => if nonEmpty r then Some r else None
      | None => None
      end
  ∧ Auth.isGuestMode (Auth.saveSession session ls) = false
  ∧ Auth.isAuthenticated (Auth.saveSession session ls)
    = nonEmpty (Auth.accessToken session)
  ∧ ∀ k, k ≠ Auth.ACCESS_TOKEN_KEY → k ≠ Auth.REFRESH_TOKEN_KEY →
         k ≠ Auth.GUEST_MODE_KEY →
         Auth.saveSession session ls !! k = ls !! k.
Proof.
  unfold Auth.isAuthenticated, Auth.isGuestMode, Auth.getAccessToken,
    Auth.getRefreshToken, Auth.saveSession.
  destruct session as [a [r|]]; simpl; [destruct (nonEmpty r)|];
    rewrite ?lookup_delete_eq;
    (split; [by simplify_map_eq|]); (split; [by simplify_map_eq|]);
    (split; [done|]); (split; [by simplify_map_eq; rewrite andb_true_r|]);
    intros k H1 H2 H3; by simplify_map_eq.
Qed.

Lemma saveSession_stores_witness :
  Auth.saveSession {| Auth.accessToken := lit "tok"; Auth.refreshToken := None |}
    {[ "theme" := lit "dark"; "guest_mode" := lit "1" ]} !! "theme"
  = Some (lit "dark").
Proof.
  destruct (saveSession_stores
              {| Auth.accessToken := lit "tok"; Auth.refreshToken := None |}
              {[ "theme" := lit "dark"; "guest_mode" := lit "1" ]})
    as (_ & _ & _ & _ & H).
  rewrite H; [vm_compute; reflexivity | done..].
Defined.

(** X2. Entering guest mode logs the user out: the tokens are gone, the
    store says guest and not authenticated, and no other key changes.
    Logging in afterwards leaves guest mode again. *)
Theorem enableGuestMode_logs_out (ls : Auth.Storage) :
  Auth.isGuestMode (Auth.enableGuestMode ls) = true
  ∧ Auth.getAccessToken (Auth.enableGuestMode ls) = None
  ∧ Auth.getRefreshToken (Auth.enableGuestMode ls) = None
  ∧ Auth.isAuthenticated (Auth.enableGuestMode ls) = false
  ∧ (∀ k, k ≠ Auth.ACCESS_TOKEN_KEY → k ≠ Auth.REFRESH_TOKEN_KEY →
          k ≠ Auth.GUEST_MODE_KEY →
          Auth.enableGuestMode ls !! k = ls !! k)
  ∧ ∀ session,
      Auth.isGuestMode (Auth.saveSession session (Auth.enableGuestMode ls))
      = false.
Proof.
  unfold Auth.isAuthenticated, Auth.isGuestMode, Auth.getAccessToken,
    Auth.getRefreshToken, Auth.enableGuestMode, Auth.clearSession.
  split; [by simplify_map_eq|]. split; [by simplify_map_eq|].
  split; [by simplify_map_eq|]. split; [by simplify_map_eq|].
  split; [intros k H1 H2 H3; by simplify_map_eq|].
  intros session. apply saveSession_guest_off.
Qed.

Lemma enableGuestMode_logs_out_witness :
  Auth.enableGuestMode {[ "theme" := lit "dark"; "access_token" := lit "tok" ]}
    !! "theme"
  = Some (lit "dark").
Proof.
  destruct (enableGuestMode_logs_out
              {[ "theme" := lit "dark"; "access_token" := lit "tok" ]})
    as (_ & _ & _ & _ & H & _).
  rewrite H; [vm_compute; reflexivity | done..].
Defined.

(** ** Requests and failures of the HTTP client *)

Lemma startsWith_spec (needle s : jsstring) :
  startsWith needle s = true ↔ ∃ post, s = needle ++ post.
Proof.
  revert s. induction needle as [|a n IH]; intros s; simpl.
  - split; [by exists s | done].
  - destruct s as [|b s]; [split; [done | by intros (? & ?)]|].
    rewrite andb_true_iff, N.eqb_eq, IH. split.
    + intros [-> (post & ->)]. by exists post.
    + intros (post & [= -> ->]). split; [done | by exists post].
Qed.

(** [includes] finds exactly the substrings. *)
Lemma includes_spec (needle s : jsstring) :
  includes needle s = true ↔ ∃ pre post, s = pre ++ needle ++ post.
Proof.
  induction s as [|c s IH]; simpl.
  - rewrite orb_false_r, startsWith_spec. split.
    + intros (post & E). by exists [], post.
    + intros (pre & post & E). destruct pre; [by exists post|done].
  - rewrite orb_true_iff, startsWith_spec, IH. split.
    + intros [(post & E) | (pre & post & ->)];
        [by exists [], post | by exists (c :: pre), post].
    + intros (pre & post & E). destruct pre as [|d pre]; simpl in E.
      * left. by exists post.
      * right. injection E as -> ->. by exists pre, post.
Qed.

Lemma res_ok_range (res : Response) :
  res_ok res = true ↔ (200 ≤ res_status res ≤ 299)%Z.
Proof. unfold res_ok. rewrite andb_true_iff, !Z.leb_le. tauto. Qed.

(** X3. [apiFetch] sends one request, to [API_BASE] followed by the path.
    It returns a value only for a response with a status
    from 200 to 299 and throws an [ApiError] only for a response with
    another status, which the error carries together with the parsed body.
    A successful response whose content type contains [application/json]
    anywhere (a charset suffix included) is returned as parsed JSON, and
    the call throws when that body does not parse; any other successful
    response is returned as text. *)
Theorem apiFetch_outcome (API_BASE : jsstring)
    (fetch : Api.Request → option Api.Response) (token : option jsstring)
    (path method : jsstring) :
  ∃ req,
    req_url req = API_BASE ++ path
    ∧ req_method req = method
    ∧ (fetch req = None →
       apiFetch API_BASE fetch token path method = ThrewOther)
    ∧ ∀ res, fetch req = Some res →
        let r := apiFetch API_BASE fetch token path method in
        (∀ v, r = Resolved v → (200 ≤ res_status res ≤ 299)%Z)
        ∧ (∀ e, r = ThrewApiError e →
             ¬ (200 ≤ res_status res ≤ 299)%Z
             ∧ Api.status e = res_status res
             ∧ body e = parseErrorBody res)
        ∧ (¬ (200 ≤ res_status res ≤ 299)%Z → ∃ e, r = ThrewApiError e)
        ∧ ((200 ≤ res_status res ≤ 299)%Z →
           (∀ pre post,
              res_content_type res
              = Some (pre ++ lit "application/json" ++ post) →
              r = match res_json res with
                  | Some v => Resolved v
                  | None => ThrewOther
                  end)
           ∧ (res_content_type res = None →
              r = match res_text res with
                  | Some t => Resolved (JStr t)
                  | None => ThrewOther
                  end)).
Proof.
  unfold apiFetch.
  match goal with |- context [fetch ?r] =>
    exists r; split; [reflexivity|]; split; [reflexivity|]; generalize r end.
  intros req. split; [by intros ->|]. intros res ->. simpl.
  pose proof (res_ok_range res) as Hok.
  destruct (res_ok res) eqn:Eok; simpl.
  - assert (200 ≤ res_status res ≤ 299)%Z as Hr by by apply Hok.
    split; [done|]. split.
    { intros e He. exfalso.
      destruct (includes _ _); [destruct (res_json res)|destruct (res_text res)];
        discriminate. }
    split; [done|]. intros _. split.
    + intros pre post Hct.
      assert (includes (lit "application/json") (contentType res) = true) as ->
        by (unfold contentType; rewrite Hct; apply includes_spec;
            by exists pre, post).
      done.
    + intros Hct.
      assert (includes (lit "application/json") (contentType res) = false) as ->
        by (unfold contentType; by rewrite Hct).
      done.
  - assert (¬ (200 ≤ res_status res ≤ 299)%Z) as Hr
      by (intros H; apply Hok in H; discriminate).
    split; [done|]. split; [by intros e [= <-]|]. split; [eauto|done].
Qed.

Lemma apiFetch_outcome_witness :
  ∃ e, apiFetch [] refusing_fetch None (lit "/projects") (lit "GET")
       = ThrewApiError e.
Proof.
  destruct (apiFetch_outcome [] refusing_fetch None (lit "/projects") (lit "GET"))
    as (req & _ & _ & _ & H).
  destruct (H _ eq_refl) as (_ & _ & Hthrow & _).
  apply Hthrow. simpl. lia.
Defined.

(** X4. The message of the [ApiError] thrown for a failed response to that
    request: the
    [detail] of a JSON body when it is a string; the body itself when the
    response is not JSON; and [Request failed (<status>)] when the JSON
    body has a [detail] that is not a string (a list of validation
    errors), has none, or does not parse. *)
Theorem apiFetch_error_message (API_BASE : jsstring)
    (fetch : Api.Request → option Api.Response) (token : option jsstring)
    (path method : jsstring) :
  ∃ req,
    req_url req = API_BASE ++ path
    ∧ req_method req = method
    ∧ ∀ res e,
    fetch req = Some res →
    apiFetch API_BASE fetch token path method = ThrewApiError e →
    let generic :=
      lit "Request failed (" ++ lit (string_of_Z (res_status res)) ++ lit ")" in
    (includes (lit "application/json") (contentType res) = false →
       ∀ t, res_text res = Some t → message e = t)
    ∧ (includes (lit "application/json") (contentType res) = true →
       (res_json res = None → message e = generic)
       ∧ (∀ o, res_json res = Some (JObj o) →
            message e = match o !! "detail" with
                        | Some (JStr d) => d
                        | _ => generic
                        end)
       ∧ (∀ l, res_json res = Some (JArr l) → message e = generic)).
Proof.
  unfold apiFetch.
  match goal with |- context [fetch ?r] =>
    exists r; split; [reflexivity|]; split; [reflexivity|]; generalize r end.
  intros req res e ->. simpl.
  destruct (res_ok res); simpl.
  { destruct (includes _ _); [destruct (res_json res)|destruct (res_text res)];
      discriminate. }
  intros [= <-]. simpl. unfold parseErrorBody. split.
  - intros -> t ->. done.
  - intros ->. split; [by intros ->|]. split.
    + intros o ->. simpl. destruct (o !! "detail") as [[]|]; done.
    + by intros l ->.
Qed.

Lemma apiFetch_error_message_witness :
  ∃ e, apiFetch [] refusing_fetch None (lit "/projects") (lit "GET")
       = ThrewApiError e
       ∧ message e = lit "still missing fields".
Proof.
  eexists. split; [reflexivity|].
  destruct (apiFetch_error_message [] refusing_fetch None
              (lit "/projects") (lit "GET")) as (req & _ & _ & H).
  destruct (H _ _ eq_refl eq_refl) as (_ & Hjson).
  destruct (Hjson eq_refl) as (_ & Hobj & _).
  rewrite (Hobj _ eq_refl). reflexivity.
Defined.

(** ** File lists *)

Lemma filterIndex_before {A} (index i : nat) (l : list A) :
  index < i → Page.filterIndex index i l = l.
Proof.
  revert i. induction l as [|x l IH]; intros i Hi; simpl; [done|].
  destruct (Nat.eqb_spec i index) as [->|_]; [lia|]. simpl.
  by rewrite IH by lia.
Qed.

Lemma filterIndex_delete {A} (index i : nat) (l : list A) :
  i ≤ index → Page.filterIndex index i l = delete (index - i) l.
Proof.
  revert i. induction l as [|x l IH]; intros i Hi; simpl; [done|].
  destruct (Nat.eqb_spec i index) as [->|Hne]; simpl.
  - rewrite Nat.sub_diag. simpl. apply filterIndex_before. lia.
  - rewrite IH by lia. replace (index - i) with (S (index - S i)) by lia.
    done.
Qed.

(** X7. [removeFile] removes the file at the given position and no other:
    the list loses one element when the position exists and is unchanged
    when it does not, and removing a file right after adding it gives the
    list back. *)
Theorem removeFile_deletes {A} (index : nat) (prev : list A) :
  Page.removeFile index prev = take index prev ++ drop (S index) prev
  ∧ (index < length prev →
       S (length (Page.removeFile index prev)) = length prev)
  ∧ (length prev ≤ index → Page.removeFile index prev = prev)
  ∧ ∀ x, Page.removeFile (length prev) (Page.addFiles [x] prev) = prev.
Proof.
  unfold Page.removeFile, Page.addFiles.
  assert (∀ l : list A, Page.filterIndex index 0 l = delete index l) as E.
  { intros l. rewrite filterIndex_delete by lia. by rewrite Nat.sub_0_r. }
  split; [|split; [|split]].
  - rewrite E. apply delete_take_drop.
  - intros Hi. rewrite E, length_delete; [lia|]. by apply lookup_lt_is_Some.
  - intros Hi. rewrite E, delete_take_drop, take_ge, drop_ge by lia.
    apply app_nil_r.
  - intros x. rewrite filterIndex_delete by lia. rewrite Nat.sub_0_r.
    by rewrite delete_middle, app_nil_r.
Qed.

Lemma removeFile_deletes_witness :
  S (length (Page.removeFile 1 [10; 20; 30])) = 3
  ∧ Page.removeFile 7 [10; 20; 30] = [10; 20; 30].
Proof.
  split.
  - apply (removeFile_deletes 1 [10; 20; 30]). simpl. lia.
  - apply (removeFile_deletes 7 [10; 20; 30]). simpl. lia.
Defined.

(** ** The create and edit forms *)

Lemma parseProposedSeats_clean (raw : jsstring) :
  Forall (λ e, trim e = e ∧ nonblank e
               ∧ Forall (λ c, isSeparator c = false) e)
         (parseProposedSeats raw).
Proof.
  apply Forall_forall. intros e He. unfold parseProposedSeats in He.
  apply list_elem_of_filter in He as [Hne He].
  apply list_elem_of_fmap in He as (seg & -> & Hseg).
  split; [apply trim_idem|]. split; [apply nonEmpty_trim; by rewrite trim_idem|].
  assert (Forall (λ c, isSeparator c = false) seg) as Hs.
  { pose proof (split_Segments raw) as HS. revert Hseg.
    induction HS as [s Hs | s c raw' segs Hs Hc _ IH].
    - by intros ->%list_elem_of_singleton.
    - intros [->|Hin]%elem_of_cons; [done | by apply IH]. }
  destruct (trim_decompose seg) as (pre & post & E & _ & _).
  rewrite E in Hs. by apply Forall_app in Hs as [_ [Hs _]%Forall_app].
Qed.

Lemma textMissing_form (s : jsstring) :
  textMissing (or_else (JStr (trim s)) JNull) = negb (nonEmpty (trim s)).
Proof.
  unfold or_else. simpl. destruct (nonEmpty (trim s)) eqn:E; [|done].
  by rewrite textMissing_JStr, trim_idem, E.
Qed.

Lemma seatsMissing_form (raw : jsstring) :
  seatsMissing (JArr (JStr <$> parseProposedSeats raw))
  = match parseProposedSeats raw with [] => true | _ :: _ => false end.
Proof.
  pose proof (parseProposedSeats_clean raw) as Hc.
  destruct (parseProposedSeats raw) as [|e r]; [done|].
  apply Forall_cons in Hc as [(_ & Hn & _) _].
  apply seatsMissing_false. exists (JStr <$> e :: r), (JStr e).
  split; [done|]. split; [by left | done].
Qed.

(** The result of [computeMissingFromIntake] depends on the five required
    keys only. *)
Lemma computeMissing_ext (i j : gmap string jsval) :
  (∀ f, f ∈ required_fields → i !! f = j !! f) →
  computeMissingFromIntake (Some i) = computeMissingFromIntake (Some j).
Proof.
  intros H. rewrite !computeMissing_filter. apply filter_ext_elem.
  intros f Hf. simpl. unfold field_missing, get. by rewrite (H f Hf).
Qed.

(** The missing fields of an intake that went through a form. *)
Lemma computeMissing_form (i : gmap string jsval) (cs ps : jsstring) :
  i !! "current_seat" = Some (or_else (JStr (trim cs)) JNull) →
  i !! "proposed_seats" = Some (JArr (JStr <$> parseProposedSeats ps)) →
  computeMissingFromIntake (Some i)
  = (if nonEmpty (trim cs) then [] else ["current_seat"])
    ++ match parseProposedSeats ps with
       | [] => ["proposed_seats"]
       | _ :: _ => []
       end
    ++ filter (λ f, field_missing i f = true)
         ["arbitration_agreement_text"; "institution_rules"; "governing_law"].
Proof.
  intros Hcs Hps. rewrite computeMissing_filter. unfold required_fields.
  rewrite (filter_cons _ "current_seat"), (filter_cons _ "proposed_seats").
  simpl default.
  assert (field_missing i "current_seat" = negb (nonEmpty (trim cs))) as ->
    by (unfold field_missing, get; rewrite Hcs; apply textMissing_form).
  assert (field_missing i "proposed_seats"
          = match parseProposedSeats ps with [] => true | _ :: _ => false end)
    as -> by (unfold field_missing, get; rewrite Hps; apply seatsMissing_form).
  destruct (nonEmpty (trim cs)), (parseProposedSeats ps); reflexivity.
Qed.

(** X8. [handleCreate] sends nothing in guest mode or when the title is
    blank, and otherwise sends the trimmed title. A project created from
    the form always lacks the agreement text, the institution rules and
    the governing law, for which the form has no field; the current seat
    is missing exactly when its field is blank and the proposed seats
    exactly when no seat can be parsed from their field. *)
Theorem handleCreate_missing
    (g : bool) (title cs ps ad : jsstring) :
  (handleCreate g title cs ps ad = None ↔ g = true ∨ ¬ nonblank title)
  ∧ ∀ payload, handleCreate g title cs ps ad = Some payload →
      payload_title payload = trim title
      ∧ computeMissingFromIntake (Some (payload_intake payload))
        = (if nonEmpty (trim cs) then [] else ["current_seat"])
          ++ match parseProposedSeats ps with
             | [] => ["proposed_seats"]
             | _ :: _ => []
             end
          ++ ["arbitration_agreement_text"; "institution_rules";
              "governing_law"].
Proof.
  unfold handleCreate. split.
  - destruct g; [by split; [left|]|].
    rewrite <- nonEmpty_trim_false. destruct (nonEmpty (trim title)); simpl.
    + split; [done | by intros [|]].
    + split; [by right | done].
  - destruct g; [done|]. destruct (negb _); [done|]. intros payload [= <-].
    split; [done|]. cbn [payload_intake].
    rewrite (computeMissing_form _ cs ps) by by simplify_map_eq.
    do 2 f_equal.
Qed.

Lemma handleCreate_missing_witness :
  ∃ payload,
    handleCreate false (lit " Seat change ") (lit "Paris") (lit " ; ") []
    = Some payload
    ∧ payload_title payload = lit "Seat change"
    ∧ computeMissingFromIntake (Some (payload_intake payload))
      = ["proposed_seats"; "arbitration_agreement_text"; "institution_rules";
         "governing_law"].
Proof.
  eexists. split; [reflexivity|].
  destruct (handleCreate_missing false (lit " Seat change ") (lit "Paris")
              (lit " ; ") []) as [_ H].
  destruct (H _ eq_refl) as [Ht Hm]. split.
  - rewrite Ht. vm_compute. reflexivity.
  - rewrite Hm. vm_compute. reflexivity.
Defined.

Lemma editedIntake_lookup (old : gmap string jsval) (cs ps ad : jsstring) :
  let i := Page.editedIntake old cs ps ad in
  i !! "current_seat" = Some (or_else (JStr (trim cs)) JNull)
  ∧ i !! "proposed_seats" = Some (JArr (JStr <$> parseProposedSeats ps))
  ∧ i !! "additional_details" = Some (or_else (JStr (trim ad)) JNull)
  ∧ ∀ k, k ≠ "current_seat" → k ≠ "proposed_seats" →
         k ≠ "additional_details" → i !! k = old !! k.
Proof.
  unfold Page.editedIntake. simpl. repeat split; try by simplify_map_eq.
  intros k H1 H2 H3. by simplify_map_eq.
Qed.

(** X9. [handleSaveEdit] does nothing without a project in the form,
    refuses in guest mode and on a blank title, and otherwise sends the
    stored intake with only [current_seat], [proposed_seats] and
    [additional_details] replaced: every other key keeps its value, so the
    agreement text, the institution rules and the governing law are
    missing after the edit exactly when they were before. *)
Theorem handleSaveEdit_keeps (g : bool) (editing : option ProjectOut)
    (title cs ps ad : jsstring) :
  match Page.handleSaveEdit g editing title cs ps ad with
  | Page.EditNothing => editing = None
  | Page.EditError msg =>
      is_Some editing
      ∧ (g = true ∧ msg = lit "Login is required to edit projects."
         ∨ g = false ∧ ¬ nonblank title ∧ msg = lit "Title is required.")
  | Page.EditSubmit id title' intake' =>
      ∃ ep, editing = Some ep ∧ g = false ∧ nonblank title
        ∧ id = project_id ep ∧ title' = trim title
        ∧ (∀ k, k ≠ "current_seat" → k ≠ "proposed_seats" →
                k ≠ "additional_details" →
                intake' !! k = project_intake ep !! k)
        ∧ computeMissingFromIntake (Some intake')
          = (if nonEmpty (trim cs) then [] else ["current_seat"])
            ++ match parseProposedSeats ps with
               | [] => ["proposed_seats"]
               | _ :: _ => []
               end
            ++ filter (λ f, f ∈ computeMissingFromIntake
                                  (Some (project_intake ep)))
                 ["arbitration_agreement_text"; "institution_rules";
                  "governing_law"]
  end.
Proof.
  unfold Page.handleSaveEdit. destruct editing as [ep|]; [|done].
  destruct g; [split; [by eexists | by left]|].
  destruct (nonEmpty (trim title)) eqn:Et; simpl.
  - exists ep. apply nonEmpty_trim in Et.
    destruct (editedIntake_lookup (project_intake ep) cs ps ad)
      as (Hcs & Hps & _ & Hk).
    repeat split; try done.
    rewrite (computeMissing_form _ cs ps Hcs Hps). do 2 f_equal.
    apply filter_ext_elem. intros f Hf.
    rewrite elem_of_computeMissing. simpl default.
    assert (f ∈ required_fields) as Hr
      by (revert Hf; unfold required_fields; rewrite !elem_of_cons; tauto).
    assert (field_missing (Page.editedIntake (project_intake ep) cs ps ad) f
            = field_missing (project_intake ep) f) as ->; [|tauto].
    unfold field_missing, get. rewrite Hk; [done|..];
      intros ->; revert Hf; rewrite !elem_of_cons, elem_of_nil;
      intros [|[|[|]]]; done.
  - apply nonEmpty_trim_false in Et. split; [by eexists | by right].
Qed.

Lemma handleSaveEdit_keeps_witness :
  ∃ intake',
    Page.handleSaveEdit false (Some finished_project) (lit "Seat change")
      (lit "Vienna") [] []
    = Page.EditSubmit (lit "p1") (lit "Seat change") intake'
    ∧ intake' !! "governing_law" = Some (JStr (lit "Swiss law")).
Proof.
  pose proof (handleSaveEdit_keeps false (Some finished_project)
                (lit "Seat change") (lit "Vienna") [] []) as H.
  destruct (Page.handleSaveEdit false (Some finished_project)
              (lit "Seat change") (lit "Vienna") [] [])
    as [|msg|id t intake'] eqn:E; [vm_compute in E; discriminate..|].
  destruct H as (ep & [= <-] & _ & _ & -> & -> & Hk & _).
  exists intake'. split.
  - reflexivity.
  - rewrite Hk by done. vm_compute. reflexivity.
Defined.

(** ** Opening the edit form and saving it again *)

Lemma joinWith_strings_cons (sep e : jsstring) (l : list jsstring) :
  Page.joinWith sep (JStr <$> e :: l)
  = match l with
    | [] => e
    | _ :: _ => e ++ sep ++ Page.joinWith sep (JStr <$> l)
    end.
Proof. by destruct l. Qed.

Lemma parse_leading_space (s : jsstring) :
  parseProposedSeats (32%N :: s) = parseProposedSeats s.
Proof.
  unfold parseProposedSeats. f_equal. simpl.
  change (isSeparator 32) with false. cbv iota.
  pose proof (split_nonempty s). by destruct (split s).
Qed.

Lemma parse_segment_first (e rest : jsstring) :
  Forall (λ c, isSeparator c = false) e → trim e = e → nonblank e →
  parseProposedSeats (e ++ 44%N :: rest) = e :: parseProposedSeats rest.
Proof.
  intros Hs Ht Hn. unfold parseProposedSeats.
  rewrite split_at_separator by done. simpl map. rewrite filter_cons, Ht.
  apply nonEmpty_trim in Hn. rewrite Ht in Hn. by rewrite decide_True.
Qed.

(** Seats written by the form survive being joined with [", "] and parsed
    again. *)
Lemma parse_join (l : list jsstring) :
  Forall (λ e, trim e = e ∧ nonblank e
               ∧ Forall (λ c, isSeparator c = false) e) l →
  parseProposedSeats (Page.joinWith (lit ", ") (JStr <$> l)) = l.
Proof.
  induction 1 as [|e l (Ht & Hn & Hs) Hl IH]; [by vm_compute|].
  rewrite joinWith_strings_cons. destruct l as [|e' l].
  - unfold parseProposedSeats. rewrite split_no_separator by done. simpl map.
    rewrite filter_cons, filter_nil, Ht.
    apply nonEmpty_trim in Hn. rewrite Ht in Hn. by rewrite decide_True.
  - change (lit ", ") with [44%N; 32%N]. simpl app.
    rewrite parse_segment_first by done. f_equal.
    rewrite parse_leading_space. exact IH.
Qed.

Lemma handleCreate_intake (g : bool) (title cs ps ad : jsstring)
    (payload : CreatePayload) :
  handleCreate g title cs ps ad = Some payload →
  payload_intake payload = Page.editedIntake ∅ cs ps ad.
Proof.
  unfold handleCreate. destruct g; [done|]. destruct (negb _); [done|].
  intros [= <-]. simpl. unfold Page.editedIntake. apply map_eq. intros k.
  destruct (decide (k = "additional_details")) as [->|?];
    [by simplify_map_eq|].
  destruct (decide (k = "proposed_seats")) as [->|?]; [by simplify_map_eq|].
  destruct (decide (k = "current_seat")) as [->|?]; by simplify_map_eq.
Qed.

Lemma nullish_form (s : jsstring) :
  Page.nullish (or_else (JStr (trim s)) JNull) (JStr []) = JStr (trim s).
Proof.
  unfold or_else. simpl. by destruct (trim s).
Qed.

(** X10. Opening the edit form on a project whose intake was written by
    the create or the edit form, and saving it without touching a field,
    sends back the intake that is stored: the fields of the form are
    strings again, and the seats joined with [", "] parse to the same
    seats. *)
Theorem edit_roundtrip (p : ProjectOut) (old : gmap string jsval)
    (cs ps ad : jsstring) :
  project_intake p = Page.editedIntake old cs ps ad
  ∨ (∃ g title payload, handleCreate g title cs ps ad = Some payload
                        ∧ project_intake p = payload_intake payload) →
  ∃ cs' ps' ad',
    Page.startEdit p
    = {| Page.editTitle := JStr (project_title p);
         Page.editCurrentSeat := JStr cs';
         Page.editProposedSeats := JStr ps';
         Page.editAdditionalDetails := JStr ad' |}
    ∧ parseProposedSeats ps' = parseProposedSeats ps
    ∧ Page.editedIntake (project_intake p) cs' ps' ad' = project_intake p
    ∧ (nonblank (project_title p) →
       Page.handleSaveEdit false (Some p) (project_title p) cs' ps' ad'
       = Page.EditSubmit (project_id p) (trim (project_title p))
           (project_intake p)).
Proof.
  intros H.
  assert (∃ old', project_intake p = Page.editedIntake old' cs ps ad)
    as (old' & Hi).
  { destruct H as [?|(g & t & payload & Hc & ->)]; [by exists old|].
    exists ∅. by eapply handleCreate_intake. }
  clear H old.
  destruct (editedIntake_lookup old' cs ps ad) as (Hcs & Hps & Had & _).
  rewrite <- Hi in Hcs, Hps, Had.
  exists (trim cs), (Page.joinWith (lit ", ") (JStr <$> parseProposedSeats ps)),
    (trim ad).
  assert (parseProposedSeats
            (Page.joinWith (lit ", ") (JStr <$> parseProposedSeats ps))
          = parseProposedSeats ps) as Hparse
    by apply parse_join, parseProposedSeats_clean.
  assert (Page.editedIntake (project_intake p) (trim cs)
            (Page.joinWith (lit ", ") (JStr <$> parseProposedSeats ps))
            (trim ad) = project_intake p) as Hsame.
  { unfold Page.editedIntake. rewrite Hparse, !trim_idem.
    rewrite (insert_id _ "current_seat") by done.
    rewrite (insert_id _ "proposed_seats") by done.
    by rewrite insert_id. }
  split; [|split; [done|split; [done|]]].
  - unfold Page.startEdit, get. rewrite Hcs, Hps, Had. simpl.
    by rewrite !nullish_form.
  - intros Hn. unfold Page.handleSaveEdit.
    apply nonEmpty_trim in Hn. rewrite Hn. simpl. by rewrite Hsame.
Qed.

Lemma edit_roundtrip_witness :
  ∃ cs' ps' ad',
    Page.editedIntake
      (Page.editedIntake complete_intake (lit " Paris") (lit "Rome;Oslo ,") [])
      cs' ps' ad'
    = Page.editedIntake complete_intake (lit " Paris") (lit "Rome;Oslo ,") [].
Proof.
  destruct (edit_roundtrip
              {| project_id := lit "p1"; project_owner_id := lit "u1";
                 project_title := lit "Seat change";
                 project_description := None;
                 project_status := lit "working";
                 project_intake :=
                   Page.editedIntake complete_intake (lit " Paris")
                     (lit "Rome;Oslo ,") [];
                 project_created_at := []; project_updated_at := [] |}
              complete_intake (lit " Paris") (lit "Rome;Oslo ,") [])
    as (cs' & ps' & ad' & _ & _ & H & _).
  - left. reflexivity.
  - exists cs', ps', ad'. exact H.
Defined.

(** ** The intervention notice *)

(** X11. The intervention notice lists the missing fields in their fixed
    order, separated by a comma and a space, and says [(unknown)] exactly
    when no required field is missing. *)
Theorem missingNotice_unknown (intake : option (gmap string jsval)) :
  (computeMissingFromIntake intake = [] ↔
   Page.missingNotice intake = lit "(unknown)")
  ∧ (computeMissingFromIntake intake ≠ [] →
     Page.missingNotice intake
     = Page.joinWith (lit ", ")
         ((λ f, JStr (lit f)) <$> computeMissingFromIntake intake)).
Proof.
  unfold Page.missingNotice. rewrite computeMissing_filter.
  unfold required_fields. rewrite !filter_cons, filter_nil.
  destruct (field_missing _ "current_seat"),
    (field_missing _ "proposed_seats"),
    (field_missing _ "arbitration_agreement_text"),
    (field_missing _ "institution_rules"),
    (field_missing _ "governing_law");
    (split; [split; intros H; vm_compute in H |- *; congruence
            | intros H; first [vm_compute in H; by destruct H
                              | vm_compute; reflexivity]]).
Qed.

Lemma missingNotice_unknown_witness :
  Page.missingNotice (Some (delete "governing_law" complete_intake))
  = lit "governing_law".
Proof.
  destruct (missingNotice_unknown
              (Some (delete "governing_law" complete_intake))) as [_ H].
  rewrite H; vm_compute; [reflexivity | discriminate].
Defined.

(** ** Loading, deleting, chatting and previewing *)

Section PageFacts.
Context {Server : Type}.
Variable api_listProjects : Server → outcome (list ProjectOut) * Server.
Variable api_deleteProject : jsstring → Server → outcome unit * Server.
Variable api_listMessages :
  jsstring → Server → outcome (list ChatMessageOut) * Server.
Variable api_getReportUrl : jsstring → Server → outcome jsstring * Server.
Variable api_getReportText : jsstring → Server → outcome jsstring * Server.

(** X12. [loadProjects] never overlaps itself: while a load is in flight
    a second one sends nothing and changes nothing. Otherwise it sends one
    request and leaves the in-flight flag clear whatever the answer; a
    failed load keeps the list that was shown and reports the error, and a
    silent load leaves the loading indicator alone. In guest mode it
    sends nothing and empties the list. *)
Theorem loadProjects_guard (silent : bool) (st : Page.PageState)
    (n : Page.Net) :
  let r := Page.loadProjects api_listProjects silent st n in
  (guest (Page.ui st) = true →
     r.2 = n ∧ Ui.projects (Page.ui r.1) = [])
  ∧ (guest (Page.ui st) = false → Page.projectsFetchInFlight st = true →
     r = (st, n))
  ∧ (guest (Page.ui st) = false → Page.projectsFetchInFlight st = false →
     Page.calls r.2 = Page.calls n ++ [Page.ListProjects]
     ∧ Page.projectsFetchInFlight r.1 = false
     ∧ Page.projectsLoading r.1
       = (if silent then Page.projectsLoading st else false)
     ∧ match (api_listProjects (Page.backend n)).1 with
       | Resolved data =>
           Ui.projects (Page.ui r.1) = data ∧ Page.projectsError r.1 = None
       | failed =>
           Ui.projects (Page.ui r.1) = Ui.projects (Page.ui st)
           ∧ Page.projectsError r.1
             = Some (Page.errorText failed (lit "Failed to load projects"))
       end).
Proof.
  unfold Page.loadProjects, Page.request. split; [|split].
  - by intros ->.
  - by intros -> ->.
  - intros -> ->. simpl.
    destruct (api_listProjects (Page.backend n)) as [[data|e|] s];
      destruct silent; simpl; done.
Qed.

(** X13. [handleDeleteProject] reloads the list only after the delete
    went through: a refused delete sends nothing more, keeps the list and
    reports the error. In guest mode it sends nothing. *)
Theorem handleDeleteProject_reload (projectId : jsstring)
    (st : Page.PageState) (n : Page.Net) :
  let r := Page.handleDeleteProject api_listProjects api_deleteProject
             projectId st n in
  (guest (Page.ui st) = true →
     r.2 = n ∧ Page.ui r.1 = Page.ui st
     ∧ Page.projectsError r.1
       = Some (lit "Login is required to delete projects."))
  ∧ (guest (Page.ui st) = false →
     match (api_deleteProject projectId (Page.backend n)).1 with
     | Resolved _ =>
         Page.calls r.2
         = Page.calls n ++ Page.DeleteProject projectId
             :: (if Page.projectsFetchInFlight st then []
                 else [Page.ListProjects])
     | failed =>
         Page.calls r.2 = Page.calls n ++ [Page.DeleteProject projectId]
         ∧ Page.ui r.1 = Page.ui st
         ∧ Page.projectsError r.1
           = Some (Page.errorText failed (lit "Failed to delete project"))
     end).
Proof.
  unfold Page.handleDeleteProject, Page.request. split.
  - by intros ->.
  - intros Hg. rewrite Hg.
    destruct (api_deleteProject projectId (Page.backend n)) as [[u|e|] s];
      simpl; try done.
    unfold Page.loadProjects, Page.request. rewrite Hg. simpl.
    destruct (Page.projectsFetchInFlight st); simpl; [done|].
    destruct (api_listProjects s) as [[data|e|] s']; simpl;
      by rewrite <- app_assoc.
Qed.

(** X14. [startChat] always selects the project and clears the old
    error. In guest mode it sends nothing and shows one notice. Otherwise
    it asks for the history once and ends with the loading flag clear:
    a history that loads is shown in full and in order, messages of the
    assistant as the assistant's and all others as the user's, and an
    empty history is replaced by one greeting; when loading fails nothing
    is shown and the error is reported. *)
Theorem startChat_history (project : ProjectOut) (st : Page.PageState)
    (n : Page.Net) :
  let r := Page.startChat api_listMessages project st n in
  chattingProject (Page.ui r.1) = Some project
  ∧ (guest (Page.ui st) = true →
     r.2 = n ∧ length (messages (Page.ui r.1)) = 1
     ∧ chatError (Page.ui r.1) = None)
  ∧ (guest (Page.ui st) = false →
     Page.calls r.2 = Page.calls n ++ [Page.ListMessages (project_id project)]
     ∧ Page.chatLoading r.1 = false
     ∧ match (api_listMessages (project_id project) (Page.backend n)).1 with
       | Resolved hist =>
           chatError (Page.ui r.1) = None
           ∧ messages (Page.ui r.1) ≠ []
           ∧ (hist = [] → messages (Page.ui r.1) = [Page.greeting project])
           ∧ (hist ≠ [] →
              ui_content <$> messages (Page.ui r.1) = cm_content <$> hist
              ∧ Forall2 (λ u m, ui_role u = RoleAi
                                ↔ cm_role m = lit "assistant")
                  (messages (Page.ui r.1)) hist)
       | failed =>
           messages (Page.ui r.1) = []
           ∧ chatError (Page.ui r.1)
             = Some (Page.errorText failed (lit "Failed to load chat"))
       end).
Proof.
  unfold Page.startChat, Page.request. simpl. split; [|split].
  - destruct (guest (Page.ui st)); [done|].
    by destruct (api_listMessages (project_id project) (Page.backend n))
      as [[[|m hist]|e|] s].
  - by intros ->.
  - intros ->.
    destruct (api_listMessages (project_id project) (Page.backend n))
      as [[[|m hist]|e|] s]; simpl; try done.
    repeat split; try done.
    + f_equal. clear H. induction hist as [|m' hist IH]; simpl; [done | by f_equal].
    + clear H. apply Forall2_cons. split.
      * unfold Page.shown. simpl. by destruct (decide _).
      * induction hist as [|m' hist IH]; simpl; constructor; [|done].
        unfold Page.shown. simpl. by destruct (decide _).
Qed.

(** X15. [openPreview] does nothing for a project that is not complete.
    For a complete project it asks for the download link and, only when
    that arrives, for the text; it ends with the loading flag clear, and
    shows an error exactly when one of the two requests failed, in which
    case no text is shown. *)
Theorem openPreview_complete (project : ProjectOut) (st : Page.PageState)
    (n : Page.Net) :
  let r := Page.openPreview api_getReportUrl api_getReportText project st n in
  let id := project_id project in
  (project_status project ≠ lit "complete" → r = (st, n))
  ∧ (project_status project = lit "complete" →
     Page.reportPreviewLoading r.1 = false
     ∧ Page.previewingProject r.1 = Some (id, project_title project)
     ∧ match (api_getReportUrl id (Page.backend n)).1 with
       | Resolved url =>
           Page.calls r.2
           = Page.calls n ++ [Page.GetReportUrl id; Page.GetReportText id]
           ∧ Page.reportPreviewUrl r.1 = Some url
           ∧ match (api_getReportText id
                      (api_getReportUrl id (Page.backend n)).2).1 with
             | Resolved text =>
                 Page.reportPreviewText r.1 = text
                 ∧ Page.reportPreviewError r.1 = None
             | failed =>
                 Page.reportPreviewText r.1 = []
                 ∧ Page.reportPreviewError r.1
                   = Some (Page.errorText failed
                             (lit "Failed to load report preview"))
             end
       | failed =>
           Page.calls r.2 = Page.calls n ++ [Page.GetReportUrl id]
           ∧ Page.reportPreviewUrl r.1 = None
           ∧ Page.reportPreviewText r.1 = []
           ∧ Page.reportPreviewError r.1
             = Some (Page.errorText failed
                       (lit "Failed to load report preview"))
       end).
Proof.
  unfold Page.openPreview, Page.request. split.
  - intros H. by rewrite decide_True.
  - intros H. rewrite decide_False by (by intros ?). simpl.
    destruct (api_getReportUrl (project_id project) (Page.backend n))
      as [[url|e|] s]; simpl; try done.
    destruct (api_getReportText (project_id project) s) as [[text|e|] s'];
      simpl; rewrite <- ?app_assoc; try done.
    repeat split. by destruct text.
Qed.

End PageFacts.

(** ** Sending a message and asking for a report *)

Section ChatFacts.
Context {Server : Type}.
Variable api_sendMessage :
  jsstring → jsstring → Server → outcome SendMessageOut * Server.
Variable api_getProject : jsstring → Server → outcome ProjectOut * Server.
Variable api_regenerateReport : jsstring → Server → outcome jsval * Server.

(** X16. A message that is not blank is sent once, trimmed, to the
    project of the chat, and the input is emptied. The user's message is
    added to the conversation before the answer arrives and stays there
    when sending fails, with the error shown; when sending succeeds the
    assistant's answer follows it and the project is fetched once more. *)
Theorem handleSendMessage_sends (st : UiState) (w : World) (cp : ProjectOut) :
  guest st = false →
  chattingProject st = Some cp →
  nonblank (inputMessage st) →
  let r := handleSendMessage api_sendMessage api_getProject st w in
  let msg := trim (inputMessage st) in
  let mine := {| ui_role := RoleUser; ui_content := msg;
                 ui_id := None; ui_created_at := None |} in
  inputMessage r.1 = []
  ∧ match (api_sendMessage (project_id cp) msg (server w)).1 with
    | Resolved res =>
        let a := assistant_message res in
        messages r.1
        = messages st
          ++ [mine;
              {| ui_role := RoleAi; ui_content := cm_content a;
                 ui_id := Some (cm_id a);
                 ui_created_at := Some (cm_created_at a) |}]
        ∧ chatError r.1 = None
        ∧ ∃ result,
            events r.2
            = events w ++ [SentMessage (project_id cp) msg;
                           GotProject (project_id cp) result]
    | failed =>
        messages r.1 = messages st ++ [mine]
        ∧ chatError r.1
          = Some (Page.errorText failed (lit "Failed to send message"))
        ∧ events r.2 = events w ++ [SentMessage (project_id cp) msg]
        ∧ chattingProject r.1 = Some cp
        ∧ Ui.projects r.1 = Ui.projects st
    end.
Proof.
  intros Hg Hcp Hn. apply nonEmpty_trim in Hn.
  unfold handleSendMessage, sendMessage, getProject. rewrite Hg, Hcp, Hn.
  simpl.
  destruct (api_sendMessage (project_id cp) (trim (inputMessage st)) (server w))
    as [[res|e|] s]; simpl; try done.
  destruct (api_getProject (project_id cp) s) as [[p|e|] s']; simpl;
    rewrite <- !app_assoc; eauto 10.
Qed.

Lemma pollLoop_keeps (n : nat) (projectId : jsstring) (st : UiState)
    (w : World) :
  let r := pollLoop api_getProject n projectId st w in
  guest r.1 = guest st
  ∧ messages r.1 = messages st
  ∧ inputMessage r.1 = inputMessage st
  ∧ chatError r.1 = chatError st
  ∧ reportLoading r.1 = reportLoading st
  ∧ project_id <$> Ui.projects r.1 = project_id <$> Ui.projects st
  ∧ project_id <$> chattingProject r.1 = project_id <$> chattingProject st.
Proof.
  revert st w. induction n as [|n IH]; intros st w; simpl; [done|].
  destruct (getProject api_getProject projectId w) as [[p|e|] w1];
    [|exact (IH _ _)..].
  match goal with |- context [setProjects ?a (setChattingProject ?b st)] =>
    set (st1 := setProjects a (setChattingProject b st)) end.
  assert (guest st1 = guest st ∧ messages st1 = messages st
          ∧ inputMessage st1 = inputMessage st ∧ chatError st1 = chatError st
          ∧ reportLoading st1 = reportLoading st
          ∧ project_id <$> Ui.projects st1 = project_id <$> Ui.projects st
          ∧ project_id <$> chattingProject st1
            = project_id <$> chattingProject st)
    as (H1 & H2 & H3 & H4 & H5 & H6 & H7).
  { unfold st1. simpl. repeat split.
    - unfold replaceProject. rewrite <- !list_fmap_compose.
      apply list_fmap_ext. intros i x _. simpl.
      by destruct (decide (project_id x = project_id p)).
    - destruct (chattingProject st) as [cur|]; [|done]. simpl.
      destruct (decide (project_id cur = project_id p)); simpl; congruence. }
  destruct (decide (project_status p ≠ lit "working")); simpl; [done|].
  destruct (IH st1 (sleep 900 w1)) as (I1 & I2 & I3 & I4 & I5 & I6 & I7).
  rewrite I1, I2, I3, I4, I5, I6, I7. done.
Qed.

(** X17. Polling only refreshes data: it never changes the conversation,
    the input, the error shown, which projects are listed and in what
    order, or which project the chat is about. *)
Theorem pollProjectUntilNotWorking_keeps (projectId : jsstring)
    (st : UiState) (w : World) :
  let r := pollProjectUntilNotWorking api_getProject projectId st w in
  guest r.1 = guest st
  ∧ messages r.1 = messages st
  ∧ inputMessage r.1 = inputMessage st
  ∧ chatError r.1 = chatError st
  ∧ reportLoading r.1 = reportLoading st
  ∧ project_id <$> Ui.projects r.1 = project_id <$> Ui.projects st
  ∧ project_id <$> chattingProject r.1 = project_id <$> chattingProject st.
Proof. apply pollLoop_keeps. Qed.

Lemma pollLoop_kinds (n : nat) (projectId : jsstring) (st : UiState)
    (w : World) :
  ∃ evs, events (pollLoop api_getProject n projectId st w).2 = events w ++ evs
         ∧ Forall (λ e, ∀ k a, e ≠ Regenerated k a) evs.
Proof.
  revert st w. induction n as [|n IH]; intros st w; simpl.
  - exists []. by rewrite app_nil_r.
  - pose proof (getProject_events api_getProject projectId w) as Hev.
    destruct (getProject api_getProject projectId w) as [r w1]. simpl in Hev.
    assert (∀ st', ∃ evs,
              events (pollLoop api_getProject n projectId st' (sleep 900 w1)).2
              = events w ++ evs
              ∧ Forall (λ e, ∀ k a, e ≠ Regenerated k a) evs) as Hgo.
    { intros st'. destruct (IH st' (sleep 900 w1)) as (evs & E & Hk).
      exists (GotProject projectId r :: Slept 900 :: evs). split.
      - rewrite E. simpl. rewrite Hev, <- !app_assoc. reflexivity.
      - by repeat constructor. }
    destruct r as [p| |]; [|by apply Hgo..].
    destruct (decide (project_status p ≠ lit "working")); [|by apply Hgo].
    exists [GotProject projectId (Resolved p)]. split; [done|].
    by repeat constructor.
Qed.

(** X18. [handleGenerateReport] sends one regenerate request for the
    project of the chat and always ends with the loading flag clear. When
    the request is refused it polls nothing, adds no message and shows the
    error; when it is accepted it adds one notice to the conversation,
    shows no error, and then polls at most 25 times. *)
Theorem handleGenerateReport_outcome (st : UiState) (w : World)
    (cp : ProjectOut) :
  guest st = false →
  chattingProject st = Some cp →
  let r := handleGenerateReport api_getProject api_regenerateReport st w in
  let answer := (api_regenerateReport (project_id cp) (server w)).1 in
  reportLoading r.1 = false
  ∧ match answer with
    | Resolved _ =>
        messages r.1
        = messages st
          ++ [{| ui_role := RoleAi;
                 ui_content :=
                   lit "Report regeneration started for this project.";
                 ui_id := None; ui_created_at := None |}]
        ∧ chatError r.1 = None
        ∧ ∃ polls,
            events r.2
            = events w ++ Regenerated (project_id cp) answer :: polls
            ∧ pollTrace 25 polls
            ∧ Forall (λ e, ∀ k a, e ≠ Regenerated k a) polls
    | failed =>
        messages r.1 = messages st
        ∧ chatError r.1
          = Some (Page.errorText failed (lit "Failed to regenerate report"))
        ∧ events r.2 = events w ++ [Regenerated (project_id cp) answer]
    end.
Proof.
  intros Hg Hcp. unfold handleGenerateReport, regenerateReport.
  rewrite Hg, Hcp. simpl.
  destruct (api_regenerateReport (project_id cp) (server w)) as [[v|e|] s];
    simpl; try done.
  unfold pollProjectUntilNotWorking.
  match goal with |- context [pollLoop _ 25 ?k ?s ?w] =>
    pose proof (pollLoop_keeps 25 k s w) as (_ & H2 & _ & H4 & _);
    pose proof (pollLoop_trace api_getProject 25 k s w) as (polls & E & Ht);
    pose proof (pollLoop_kinds 25 k s w) as (polls' & E' & Hk);
    destruct (pollLoop api_getProject 25 k s w) as [st' w'] end.
  simpl in *. rewrite H2, H4. repeat split; try done.
  exists polls. rewrite E, <- app_assoc. split; [done|]. split; [done|].
  rewrite E in E'. apply app_inv_head in E'. by subst polls'.
Qed.

End ChatFacts.

(** ** What the page shows after polling *)

Section PollShows.
Context {Server : Type}.
Variable api_getProject : jsstring → Server → outcome ProjectOut * Server.

Lemma replaceProject_shows (p : ProjectOut) (prev : list ProjectOut) :
  Forall (λ x, project_id x = project_id p → x = p) (replaceProject p prev).
Proof.
  unfold replaceProject. apply Forall_forall. intros x Hx.
  apply list_elem_of_fmap in Hx as (y & -> & _).
  by destruct (decide (project_id y = project_id p)).
Qed.

Lemma snoc_eq_app {A} (pre : list A) (x : A) (a evs : list A) :
  pre ++ [x] = a ++ evs →
  (evs = [] ∧ a = pre ++ [x]) ∨ ∃ pre', evs = pre' ++ [x] ∧ pre = a ++ pre'.
Proof.
  destruct evs as [|e evs _] using rev_ind.
  - rewrite app_nil_r. intros ->. by left.
  - rewrite app_assoc. intros [-> ->]%app_inj_tail. right. by exists evs.
Qed.

Lemma pollLoop_shows (n : nat) (projectId : jsstring) (st : UiState)
    (w : World) (pre : list Event) (p : ProjectOut) :
  let r := pollLoop api_getProject n projectId st w in
  events r.2 = events w ++ pre ++ [GotProject projectId (Resolved p)] →
  project_status p ≠ lit "working" →
  Forall (λ x, project_id x = project_id p → x = p) (Ui.projects r.1)
  ∧ ∀ cur, chattingProject st = Some cur → project_id cur = project_id p →
           chattingProject r.1 = Some p.
Proof.
  revert st w pre. induction n as [|n IH]; intros st w pre; simpl.
  { intros E. rewrite <- (app_nil_r (events w)) in E at 1.
    apply app_inv_head in E. by destruct pre. }
  pose proof (getProject_events api_getProject projectId w) as Hev.
  destruct (getProject api_getProject projectId w) as [r0 w1]. simpl in Hev.
  assert (∀ st',
            (∀ cur, chattingProject st = Some cur →
                    ∃ cur', chattingProject st' = Some cur'
                            ∧ project_id cur' = project_id cur) →
            let r := pollLoop api_getProject n projectId st' (sleep 900 w1) in
            events r.2 = events w ++ pre ++ [GotProject projectId (Resolved p)] →
            project_status p ≠ lit "working" →
            Forall (λ x, project_id x = project_id p → x = p) (Ui.projects r.1)
            ∧ ∀ cur, chattingProject st = Some cur →
                     project_id cur = project_id p →
                     chattingProject r.1 = Some p) as Hgo.
  { intros st' Hchat r E Hp.
    destruct (pollLoop_kinds api_getProject n projectId st' (sleep 900 w1))
      as (evs & E' & _).
    fold r in E'. rewrite E in E'. simpl in E'.
    rewrite Hev, <- !app_assoc in E'. apply app_inv_head in E'.
    apply (snoc_eq_app pre _ [GotProject projectId r0; Slept 900] evs) in E'
      as [[_ E']|(pre' & Hevs & Hpre)].
    { destruct pre as [|? [|? [|]]]; simplify_eq/=. }
    subst evs pre.
    destruct (IH st' (sleep 900 w1) pre') as [Hl Hc]; [|done|].
    { fold r. rewrite E. cbn [sleep events]. rewrite Hev.
      by rewrite <- !app_assoc. }
    split; [done|]. intros cur Hcur Hid.
    destruct (Hchat cur Hcur) as (cur' & Hcur' & Hid').
    apply (Hc cur' Hcur'). congruence. }
  destruct r0 as [p0|e|]; [|by apply Hgo; eauto..].
  destruct (decide (project_status p0 ≠ lit "working")) as [Hp0|Hp0].
  - simpl. rewrite Hev. intros E Hp. apply app_inv_head in E.
    destruct pre as [|? [|]]; simplify_eq/=.
    split; [apply replaceProject_shows|].
    intros cur -> Hid. by rewrite decide_True.
  - apply Hgo. intros cur ->. simpl.
    destruct (decide (project_id cur = project_id p0)); eauto.
Qed.

(** X19. When polling stops on a poll that saw the project in a status
    other than ['working'], the page shows what that poll returned: every
    entry of the list with the project's id is the polled project, and so
    is the project of the chat when the chat is about that project. *)
Theorem pollProjectUntilNotWorking_shows (projectId : jsstring)
    (st : UiState) (w : World) (pre : list Event) (p : ProjectOut) :
  let r := pollProjectUntilNotWorking api_getProject projectId st w in
  events r.2 = events w ++ pre ++ [GotProject projectId (Resolved p)] →
  project_status p ≠ lit "working" →
  Forall (λ x, project_id x = project_id p → x = p) (Ui.projects r.1)
  ∧ ∀ cur, chattingProject st = Some cur → project_id cur = project_id p →
           chattingProject r.1 = Some p.
Proof. apply pollLoop_shows. Qed.

End PollShows.

(** ** Documents and messages *)

Lemma on_projects_inl (f : Db.table → Db.table + Db.error)
    (db db' : Schema.database) :
  Schema.on_projects f db = inl db' →
  ∃ t, f (Schema.projects db) = inl t
       ∧ db' = {| Schema.projects := t;
                  Schema.documents := Schema.documents db;
                  Schema.messages := Schema.messages db |}.
Proof.
  unfold Schema.on_projects. destruct (f (Schema.projects db)) as [t|e];
    [|done].
  intros [= <-]. by exists t.
Qed.

(** A statement on the projects table other than a delete keeps every
    project it found. *)
Lemma projects_kept (s : Db.table → Db.table + Db.error) (t t' : Db.table)
    (k : jsstring) :
  (∃ r, s = Db.insert r) ∨ (∃ j set now, s = Db.update j set now) →
  s t = inl t' → is_Some (t !! k) → is_Some (t' !! k).
Proof.
  intros [(r & ->)|(j & set & now & ->)].
  - unfold Db.insert. destruct (t !! Db.id r); [done|].
    destruct (Db.status_check _); [|done]. intros [= <-] Hk.
    apply lookup_insert_is_Some'. by right.
  - unfold Db.update. destruct (t !! j) as [old|] eqn:Ej; [|by intros [= <-]].
    destruct (Db.status_check _); [|done]. intros [= <-] Hk.
    apply lookup_insert_is_Some'. by right.
Qed.

Lemma referential_projects (db : Schema.database) (t : Db.table) :
  (∀ k, is_Some (Schema.projects db !! k) → is_Some (t !! k)) →
  Schema.referential db →
  Schema.referential
    {| Schema.projects := t; Schema.documents := Schema.documents db;
       Schema.messages := Schema.messages db |}.
Proof.
  intros Hk [Hd Hm]. split; simpl.
  - intros k d Hkd. apply Hk, (Hd k d Hkd).
  - intros k m Hkm. apply Hk, (Hm k m Hkm).
Qed.

Lemma exec_referential (s : Schema.statement) (db db' : Schema.database) :
  Schema.referential db → Schema.exec s db = inl db' →
  Schema.referential db'.
Proof.
  intros Hr. destruct s as [r | k set now | k | d | k | m | k]; simpl.
  - intros (t & Ht & ->)%on_projects_inl.
    apply referential_projects; [|done]. intros k.
    apply (projects_kept (Db.insert r)); eauto.
  - intros (t & Ht & ->)%on_projects_inl.
    apply referential_projects; [|done]. intros j.
    apply (projects_kept (Db.update k set now)); eauto 6.
  - intros [= <-]. destruct Hr as [Hd Hm]. split; simpl.
    + intros j d [Hjd Hne]%map_lookup_filter_Some. simpl in Hne.
      rewrite lookup_delete_ne by done. apply (Hd j d Hjd).
    + intros j m [Hjm Hne]%map_lookup_filter_Some. simpl in Hne.
      rewrite lookup_delete_ne by done. apply (Hm j m Hjm).
  - unfold Schema.insert_document.
    destruct (Schema.documents db !! Schema.doc_id d); [done|].
    destruct (Schema.projects db !! Schema.doc_project_id d) eqn:Ep; [|done].
    intros [= <-]. destruct Hr as [Hd Hm]. split; simpl; [|done].
    apply map_Forall_insert_2; [by rewrite Ep | done].
  - intros [= <-]. destruct Hr as [Hd Hm]. split; simpl; [|done].
    by apply map_Forall_delete.
  - unfold Schema.insert_message.
    destruct (Schema.messages db !! Schema.msg_id m); [done|].
    destruct (Schema.role_check _); [|done].
    destruct (Schema.projects db !! Schema.msg_project_id m) eqn:Ep; [|done].
    intros [= <-]. destruct Hr as [Hd Hm]. split; simpl; [done|].
    apply map_Forall_insert_2; [by rewrite Ep | done].
  - intros [= <-]. destruct Hr as [Hd Hm]. split; simpl; [done|].
    by apply map_Forall_delete.
Qed.

Lemma run_invariant (P : Schema.database → Prop) :
  (∀ s db db', P db → Schema.exec s db = inl db' → P db') →
  ∀ ss db, P db → P (Schema.run ss db).
Proof.
  intros Hstep ss. induction ss as [|s ss IH]; intros db Hdb; simpl; [done|].
  apply IH. unfold Schema.run1.
  destruct (Schema.exec s db) as [db'|] eqn:E; [|done]. by eapply Hstep.
Qed.

(** X20. Whatever statements run on the three tables, every document and
    every message belongs to a project that exists: an insert that names
    no existing project is refused and changes nothing, and deleting a
    project takes its documents and messages with it. *)
Theorem referential_integrity (ss : list Schema.statement) :
  Schema.referential (Schema.run ss Schema.empty)
  ∧ (∀ d db, Schema.documents db !! Schema.doc_id d = None →
       Schema.projects db !! Schema.doc_project_id d = None →
       Schema.exec (Schema.InsertDocument d) db
       = inr Schema.ForeignKeyViolation
       ∧ Schema.run1 db (Schema.InsertDocument d) = db)
  ∧ (∀ m db, Schema.messages db !! Schema.msg_id m = None →
       Schema.role_check (Schema.role m) = true →
       Schema.projects db !! Schema.msg_project_id m = None →
       Schema.exec (Schema.InsertMessage m) db
       = inr Schema.ForeignKeyViolation
       ∧ Schema.run1 db (Schema.InsertMessage m) = db).
Proof.
  split; [|split].
  - apply (run_invariant Schema.referential).
    + intros s db db'. apply exec_referential.
    + split; apply map_Forall_empty.
  - intros d db Hd Hp. unfold Schema.run1. simpl.
    unfold Schema.insert_document. by rewrite Hd, Hp.
  - intros m db Hm Hr Hp. unfold Schema.run1. simpl.
    unfold Schema.insert_message. by rewrite Hm, Hr, Hp.
Qed.

(** Deleting a project removes the project, exactly its documents
    and exactly its messages; the rows of every other project stay as
    they are. *)
Theorem delete_project_cascades (k : jsstring) (db : Schema.database) :
  let db' := Schema.delete_project k db in
  Schema.projects db' !! k = None
  ∧ (∀ j, j ≠ k → Schema.projects db' !! j = Schema.projects db !! j)
  ∧ (∀ j d, Schema.documents db' !! j = Some d
            ↔ Schema.documents db !! j = Some d
              ∧ Schema.doc_project_id d ≠ k)
  ∧ (∀ j m, Schema.messages db' !! j = Some m
            ↔ Schema.messages db !! j = Some m
              ∧ Schema.msg_project_id m ≠ k).
Proof.
  unfold Schema.delete_project. simpl. split; [apply lookup_delete_eq|].
  split; [intros j Hj; by apply lookup_delete_ne|].
  split; intros j x; apply map_lookup_filter_Some.
Qed.

Lemma role_check_valid (m : Schema.message) :
  Schema.role_check (Schema.role m) = true ↔ Schema.role_valid m.
Proof.
  unfold Schema.role_check, Schema.role_valid.
  rewrite bool_decide_eq_true, !elem_of_cons, elem_of_nil. tauto.
Qed.

Lemma exec_roles (s : Schema.statement) (db db' : Schema.database) :
  map_Forall (λ _ m, Schema.role_valid m) (Schema.messages db) →
  Schema.exec s db = inl db' →
  map_Forall (λ _ m, Schema.role_valid m) (Schema.messages db').
Proof.
  intros Hr. destruct s as [r | k set now | k | d | k | m | k]; simpl.
  - by intros (t & Ht & ->)%on_projects_inl.
  - by intros (t & Ht & ->)%on_projects_inl.
  - intros [= <-]. simpl. intros j m [Hjm _]%map_lookup_filter_Some.
    apply (Hr j m Hjm).
  - unfold Schema.insert_document.
    destruct (Schema.documents db !! _); [done|].
    destruct (Schema.projects db !! _); [|done]. by intros [= <-].
  - by intros [= <-].
  - unfold Schema.insert_message.
    destruct (Schema.messages db !! Schema.msg_id m); [done|].
    destruct (Schema.role_check _) eqn:Ec; [|done].
    destruct (Schema.projects db !! _); [|done]. intros [= <-]. simpl.
    apply map_Forall_insert_2; [by apply role_check_valid | done].
  - intros [= <-]. by apply map_Forall_delete.
Qed.

(** X21. Whatever statements run, every stored message has the role
    ['user'], ['assistant'] or ['system']: an insert with another role is
    refused by the check constraint and changes nothing. *)
Theorem message_roles_valid (ss : list Schema.statement) :
  map_Forall (λ _ m, Schema.role_valid m)
    (Schema.messages (Schema.run ss Schema.empty))
  ∧ ∀ m db, Schema.messages db !! Schema.msg_id m = None →
      ¬ Schema.role_valid m →
      Schema.exec (Schema.InsertMessage m) db = inr Schema.CheckViolation
      ∧ Schema.run1 db (Schema.InsertMessage m) = db.
Proof.
  split.
  - apply (run_invariant
             (λ db, map_Forall (λ _ m, Schema.role_valid m)
                      (Schema.messages db))).
    + intros s db db'. apply exec_roles.
    + apply map_Forall_empty.
  - intros m db Hm Hr. unfold Schema.run1. simpl.
    unfold Schema.insert_message. rewrite Hm.
    destruct (Schema.role_check (Schema.role m)) eqn:Ec; [|done].
    by apply role_check_valid in Ec.
Qed.

(** ** Keys and time stamps of the projects table *)



(** ** Logging in *)

(** X23. Submitting the login form sends one request, with the email
    trimmed and the password as typed, to the login or the signup
    endpoint as the form says, and ends with the loading flag clear. When
    the request fails the stored session is untouched, the page stays and
    shows the error; when it succeeds the tokens of the answer are
    stored, guest mode ends, and the user is authenticated exactly when
    the access token is not empty. *)
Theorem handleSubmit_session
    (api_login api_signup : jsstring → jsstring → outcome Login.AuthResponse)
    (p : Login.Page) :
  let st := Login.form p in
  let p' := Login.handleSubmit api_login api_signup p in
  let mail := trim (if Login.isLogin st then Login.loginEmail st
                    else Login.registerEmail st) in
  let password := if Login.isLogin st then Login.loginPassword st
                  else Login.registerPassword st in
  let answer := if Login.isLogin st then api_login mail password
                else api_signup mail password in
  Login.sent p'
  = Login.sent p
    ++ [(if Login.isLogin st then lit "/auth/login" else lit "/auth/signup",
         mail, password)]
  ∧ Login.loading (Login.form p') = false
  ∧ match answer with
    | Resolved res =>
        Login.succeeded p' = true
        ∧ Login.error (Login.form p') = None
        ∧ Auth.getAccessToken (Login.storage p')
          = Some (Login.access_token (Login.session res))
        ∧ Auth.isGuestMode (Login.storage p') = false
        ∧ Auth.isAuthenticated (Login.storage p')
          = nonEmpty (Login.access_token (Login.session res))
    | failed =>
        Login.storage p' = Login.storage p
        ∧ Login.succeeded p' = Login.succeeded p
        ∧ is_Some (Login.error (Login.form p'))
        ∧ ∀ e, failed = ThrewApiError e →
               Login.error (Login.form p') = Some (message e)
    end.
Proof.
  unfold Login.handleSubmit. simpl.
  destruct (Login.isLogin (Login.form p)); simpl.
  - destruct (api_login _ _) as [res|e|]; simpl.
    + repeat split; try done.
      * unfold Auth.getAccessToken, Auth.saveSession. simpl.
        destruct (Login.refresh_token _) as [r|]; [destruct (nonEmpty r)|];
          by simplify_map_eq.
      * apply saveSession_guest_off.
      * unfold Auth.isAuthenticated.
        rewrite saveSession_guest_off, andb_true_r.
        unfold Auth.getAccessToken, Auth.saveSession. simpl.
        destruct (Login.refresh_token _) as [r|]; [destruct (nonEmpty r)|];
          by simplify_map_eq.
    + repeat split; try done. by intros ? [= <-].
    + repeat split; done.
  - destruct (api_signup _ _) as [res|e|]; simpl.
    + repeat split; try done.
      * unfold Auth.getAccessToken, Auth.saveSession. simpl.
        destruct (Login.refresh_token _) as [r|]; [destruct (nonEmpty r)|];
          by simplify_map_eq.
      * apply saveSession_guest_off.
      * unfold Auth.isAuthenticated.
        rewrite saveSession_guest_off, andb_true_r.
        unfold Auth.getAccessToken, Auth.saveSession. simpl.
        destruct (Login.refresh_token _) as [r|]; [destruct (nonEmpty r)|];
          by simplify_map_eq.
    + repeat split; try done. by intros ? [= <-].
    + repeat split; done.
Qed.

(** ** Guest mode *)

Section GuestFacts.
Context {Server : Type}.
Variable api_sendMessage :
  jsstring → jsstring → Server → outcome SendMessageOut * Server.
Variable api_getProject : jsstring → Server → outcome ProjectOut * Server.
Variable api_regenerateReport : jsstring → Server → outcome jsval * Server.
Variable api_listProjects : Server → outcome (list ProjectOut) * Server.
Variable api_deleteProject : jsstring → Server → outcome unit * Server.
Variable api_listMessages :
  jsstring → Server → outcome (list ChatMessageOut) * Server.

(** X24. The guest button puts the session store in guest mode, and a
    page in guest mode sends nothing: creating, saving an edit, sending a
    message, asking for a report, loading or deleting projects and
    opening a chat all leave the backend and the list of requests as they
    were. *)
Theorem guest_mode_offline (p : Login.Page) (st : Page.PageState)
    (w : World) (n : Page.Net) :
  Auth.isGuestMode (Login.storage (Login.continueAsGuest p)) = true
  ∧ (guest (Page.ui st) = true →
     (∀ title cs ps ad, handleCreate true title cs ps ad = None)
     ∧ (∀ editing title cs ps ad id title' intake',
          Page.handleSaveEdit true editing title cs ps ad
          ≠ Page.EditSubmit id title' intake')
     ∧ (handleSendMessage api_sendMessage api_getProject (Page.ui st) w).2 = w
     ∧ (handleGenerateReport api_getProject api_regenerateReport
          (Page.ui st) w).2 = w
     ∧ (∀ silent, (Page.loadProjects api_listProjects silent st n).2 = n)
     ∧ (∀ k, (Page.handleDeleteProject api_listProjects api_deleteProject
                k st n).2 = n)
     ∧ (∀ project, (Page.startChat api_listMessages project st n).2 = n)).
Proof.
  split.
  - unfold Login.continueAsGuest, Auth.isGuestMode, Auth.enableGuestMode.
    simpl. by simplify_map_eq.
  - intros Hg. split; [done|]. split.
    { intros [ep|] *; simpl; done. }
    unfold handleSendMessage, handleGenerateReport, Page.loadProjects,
      Page.handleDeleteProject, Page.startChat. simpl. rewrite Hg.
    repeat split; done.
Qed.

End GuestFacts.

(** ** The properties above on sample pages *)

Lemma loadProjects_guard_witness :
  Page.projectsFetchInFlight
    (Page.loadProjects sample_listProjects true sample_state sample_net).1
  = false
  ∧ Page.loadProjects sample_listProjects false
      (Page.setFetchInFlight true sample_state) sample_net
    = (Page.setFetchInFlight true sample_state, sample_net).
Proof.
  split.
  - apply (loadProjects_guard sample_listProjects true sample_state sample_net);
      reflexivity.
  - apply (loadProjects_guard sample_listProjects false
             (Page.setFetchInFlight true sample_state) sample_net);
      reflexivity.
Defined.

Lemma handleDeleteProject_reload_witness :
  Page.calls
    (Page.handleDeleteProject sample_listProjects refusing_deleteProject
       (lit "p1") sample_state sample_net).2
  = [Page.DeleteProject (lit "p1")].
Proof.
  pose proof (handleDeleteProject_reload sample_listProjects
                refusing_deleteProject (lit "p1") sample_state sample_net)
    as [_ H].
  apply (H eq_refl).
Defined.

Lemma startChat_history_witness :
  ui_content
    <$> messages (Page.ui (Page.startChat sample_listMessages finished_project
                             sample_state sample_net).1)
  = [lit "Hi"; lit "Hello"].
Proof.
  pose proof (startChat_history sample_listMessages finished_project
                sample_state sample_net) as (_ & _ & H).
  destruct (H eq_refl) as (_ & _ & _ & _ & _ & Hh).
  apply Hh. discriminate.
Defined.

Lemma openPreview_complete_witness :
  Page.reportPreviewLoading
    (Page.openPreview sample_getReportUrl refusing_getReportText
       finished_project sample_state sample_net).1
  = false.
Proof.
  apply (openPreview_complete sample_getReportUrl refusing_getReportText
           finished_project sample_state sample_net).
  reflexivity.
Defined.

Lemma handleSendMessage_sends_witness :
  inputMessage
    (handleSendMessage quiet_sendMessage finished_getProject typing_page
       quiet_world).1
  = [].
Proof.
  apply (handleSendMessage_sends quiet_sendMessage finished_getProject
           typing_page quiet_world finished_project);
    [reflexivity | reflexivity |].
  apply nonEmpty_trim. vm_compute. reflexivity.
Defined.

Lemma handleGenerateReport_outcome_witness :
  reportLoading
    (handleGenerateReport finished_getProject refusing_regenerate blank_page
       quiet_world).1
  = false.
Proof.
  apply (handleGenerateReport_outcome finished_getProject refusing_regenerate
           blank_page quiet_world finished_project); reflexivity.
Defined.

Lemma pollProjectUntilNotWorking_shows_witness :
  chattingProject
    (pollProjectUntilNotWorking finished_getProject (lit "p1") blank_page
       quiet_world).1
  = Some finished_project.
Proof.
  destruct (pollProjectUntilNotWorking_shows finished_getProject (lit "p1")
              blank_page quiet_world [] finished_project) as [_ H].
  - vm_compute. reflexivity.
  - vm_compute. discriminate.
  - apply (H finished_project); reflexivity.
Defined.

Lemma referential_integrity_witness :
  Schema.run1 Schema.empty (Schema.InsertDocument sample_document)
  = Schema.empty.
Proof.
  apply (referential_integrity []); reflexivity.
Defined.

Lemma message_roles_valid_witness :
  Schema.run1 Schema.empty (Schema.InsertMessage sample_message)
  = Schema.empty.
Proof.
  apply (message_roles_valid []); [reflexivity|].
  unfold Schema.role_valid. vm_compute. intros [H|[H|H]]; discriminate.
Defined.


Lemma handleSubmit_session_witness :
  Login.error (Login.form (Login.handleSubmit refusing_login refusing_login
                             login_page))
  = Some (lit "Forbidden").
Proof.
  destruct (handleSubmit_session refusing_login refusing_login login_page)
    as (_ & _ & _ & _ & _ & H).
  apply (H forbidden). reflexivity.
Defined.

Lemma guest_mode_offline_witness :
  (Page.startChat sample_listMessages finished_project guest_state
     sample_net).2
  = sample_net.
Proof.
  destruct (guest_mode_offline quiet_sendMessage finished_getProject
              refusing_regenerate sample_listProjects refusing_deleteProject
              sample_listMessages login_page guest_state quiet_world
              sample_net) as [_ H].
  destruct (H eq_refl) as (_ & _ & _ & _ & _ & _ & Hc).
  apply Hc.
Defined.

(** ** Requests with a body *)

Section UploadFacts.
Context {File : Type}.
Variable API_BASE : jsstring.
Variable fetch : Upload.Request (File:=File) → option Api.Response.
Variable token : option jsstring.
Variable stringify : jsval → jsstring.

Lemma contentTypePart_elem (formData : bool) (k v : jsstring) :
  (k, v) ∈ Upload.contentTypePart formData
  ↔ formData = false ∧ k = lit "Content-Type" ∧ v = lit "application/json".
Proof.
  unfold Upload.contentTypePart. destruct formData.
  - rewrite elem_of_nil. split; [done | by intros [? _]].
  - rewrite list_elem_of_singleton. split; [by intros [= -> ->] | by intros (_ & -> & ->)].
Qed.

Lemma authorizationPart_elem (tok : option jsstring) (k v : jsstring) :
  (k, v) ∈ Upload.authorizationPart tok
  ↔ k = lit "Authorization"
    ∧ ∃ t, tok = Some t ∧ t ≠ [] ∧ v = lit "Bearer " ++ t.
Proof.
  unfold Upload.authorizationPart. destruct tok as [[|c t]|]; cbn [nonEmpty].
  - rewrite elem_of_nil. split; [done | by intros (_ & ? & [= <-] & ? & _)].
  - rewrite list_elem_of_singleton. split.
    + intros [= -> ->]. split; [done|]. by exists (c :: t).
    + by intros (-> & t' & [= <-] & _ & ->).
  - rewrite elem_of_nil. split; [done | by intros (_ & ? & [=] & _)].
Qed.

(** X5. Every request goes to [API_BASE] followed by the path, with the
    method and the body it was given. It declares a JSON content type
    exactly when its body is not a [FormData], so that an upload never
    carries a content type of the client's making, and it carries an
    [Authorization] header exactly when the session has a non-empty access
    token, with the value [Bearer <token>]. *)
Theorem apiFetch_headers (path : jsstring) (method : option jsstring)
    (body : Upload.Body) :
  ∃ req,
    Upload.apiFetch API_BASE fetch token path method body
    = Upload.respond (fetch req)
    ∧ Upload.url req = API_BASE ++ path
    ∧ Upload.method req = method
    ∧ Upload.body req = body
    ∧ (∀ v, (lit "Content-Type", v) ∈ Upload.headers req
            ↔ Upload.isFormData body = false ∧ v = lit "application/json")
    ∧ (∀ v, (lit "Authorization", v) ∈ Upload.headers req
            ↔ ∃ t, token = Some t ∧ t ≠ [] ∧ v = lit "Bearer " ++ t).
Proof.
  unfold Upload.apiFetch. eexists. split; [reflexivity|].
  repeat (split; [reflexivity|]). cbn [Upload.headers].
  match goal with |- (∀ v, _ ∈ ?h ↔ _) ∧ _ =>
    assert (h = Upload.contentTypePart (Upload.isFormData body)
                ++ Upload.authorizationPart token) as ->
  end.
  { unfold Upload.contentTypePart, Upload.authorizationPart.
    destruct (Upload.isFormData body), token as [[|??]|];
      cbn [negb nonEmpty]; by rewrite ?app_nil_r. }
  split; intros v; rewrite elem_of_app, contentTypePart_elem,
    authorizationPart_elem.
  - split; [|tauto].
    intros [(? & _ & ?)|[H _]]; [done|]. vm_compute in H. discriminate.
  - split; [|tauto].
    intros [(_ & H & _)|[_ ?]]; [|done]. vm_compute in H. discriminate.
Qed.

Lemma filesOf_files (files : list File) :
  Upload.filesOf (map (λ f, (lit "files", Upload.FormFile f)) files) = files.
Proof.
  unfold Upload.filesOf. induction files as [|f files IH]; [done|].
  simpl. f_equal. exact IH.
Qed.

Lemma filesOf_app (a b : list (jsstring * Upload.FormValue (File:=File))) :
  Upload.filesOf (a ++ b) = Upload.filesOf a ++ Upload.filesOf b.
Proof. unfold Upload.filesOf. apply omap_app. Qed.

Lemma optionalField_elem (name : string) (o : option jsstring)
    (k : jsstring) (v : jsstring) :
  (k, Upload.FormText v) ∈ Upload.optionalField (File:=File) name o
  ↔ k = lit name ∧ o = Some v ∧ v ≠ [].
Proof.
  unfold Upload.optionalField. destruct o as [[|c s]|]; cbn [nonEmpty].
  - rewrite elem_of_nil. split; [done | by intros (_ & [= <-] & ?)].
  - rewrite list_elem_of_singleton. split.
    + by intros [= -> ->].
    + by intros (-> & [= <-] & _).
  - rewrite elem_of_nil. split; [done | by intros (_ & [=] & _)].
Qed.

Lemma createForm_parts (payload : Upload.CreateProject) (files : list File) :
  Upload.createForm stringify payload files
  = (lit "title", Upload.FormText (Upload.title payload))
    :: Upload.optionalField "description" (Upload.description payload)
    ++ Upload.optionalField "status_value" (Upload.status payload)
    ++ match Upload.intake payload with
       | Some i => [(lit "intake_json", Upload.FormText (stringify (JObj i)))]
       | None => []
       end
    ++ map (λ f, (lit "files", Upload.FormFile f)) files.
Proof.
  unfold Upload.createForm, Upload.optionalField.
  destruct payload as [t [[|??]|] [[|??]|] [i|]]; reflexivity.
Qed.

(** X6. [createProjectWithDocuments] sends a [FormData] that starts with
    the title, carries every chosen file once and in the order chosen,
    and carries the status and the description only when they are not
    empty. [uploadDocuments] sends exactly the chosen files, in order. *)
Theorem createForm_entries (payload : Upload.CreateProject)
    (files : list File) :
  let form := Upload.createForm stringify payload files in
  Upload.filesOf form = files
  ∧ (∃ rest, form = (lit "title", Upload.FormText (Upload.title payload))
                    :: rest)
  ∧ (∀ s, (lit "status_value", Upload.FormText s) ∈ form
          ↔ Upload.status payload = Some s ∧ s ≠ [])
  ∧ (∀ s, (lit "description", Upload.FormText s) ∈ form
          ↔ Upload.description payload = Some s ∧ s ≠ [])
  ∧ length form ≤ 4 + length files
  ∧ (∀ projectId,
       ∃ req, Upload.uploadDocuments API_BASE fetch token projectId files
              = Upload.respond (fetch req)
              ∧ ∃ form', Upload.body req = Upload.FormDataBody form'
                         ∧ Upload.filesOf form' = files
                         ∧ length form' = length files).
Proof.
  assert (∀ k s,
            (k, Upload.FormText s)
            ∉ map (λ f : File, (lit "files", Upload.FormFile f)) files)
    as Hfiles.
  { intros k s Hin. apply list_elem_of_fmap in Hin as (x & [= _ ?] & _). }
  assert (∀ k s,
            (k, Upload.FormText s)
            ∈ match Upload.intake payload with
              | Some i =>
                  [(lit "intake_json",
                    Upload.FormText (File:=File) (stringify (JObj i)))]
              | None => []
              end → k = lit "intake_json") as Hintake.
  { intros k s. destruct (Upload.intake payload).
    - by intros [= -> _]%list_elem_of_singleton.
    - by intros ?%elem_of_nil. }
  cbv zeta. rewrite createForm_parts.
  split; [|split; [|split; [|split; [|split]]]].
  - match goal with |- Upload.filesOf (?x :: ?rest) = _ =>
      change (x :: rest) with ([x] ++ rest) end.
    rewrite !filesOf_app, filesOf_files. unfold Upload.optionalField.
    destruct payload as [t [[|??]|] [[|??]|] [i|]]; reflexivity.
  - eauto.
  - intros s. rewrite elem_of_cons, !elem_of_app, !optionalField_elem. split.
    + intros [E|[(E & _)|[(_ & ?)|[E%Hintake|E%Hfiles]]]];
        try done; try (apply (f_equal fst) in E); vm_compute in E;
        discriminate.
    + intros ?. right. right. left. by split.
  - intros s. rewrite elem_of_cons, !elem_of_app, !optionalField_elem. split.
    + intros [E|[(_ & ?)|[(E & _)|[E%Hintake|E%Hfiles]]]];
        try done; try (apply (f_equal fst) in E); vm_compute in E;
        discriminate.
    + intros ?. right. left. by split.
  - simpl. rewrite !length_app, length_map. unfold Upload.optionalField.
    destruct payload as [t [[|??]|] [[|??]|] [i|]]; simpl; lia.
  - intros projectId. unfold Upload.uploadDocuments, Upload.apiFetch.
    eexists. split; [reflexivity|]. eexists. split; [reflexivity|].
    split; [apply filesOf_files | apply length_map].
Qed.

End UploadFacts.
